(** * Gensyn node data collector: a model of [gensyn_data_collector.py]

    The development follows [GensynDataCollector]: the roster reader
    [read_node_ids], the batched address lookup [get_eoa_addresses_batch],
    the status fetch [get_peer_info], the activity probe
    [get_last_internal_tx_time] and the reconciliation loop
    [collect_node_data].

    Modelling conventions.
    - Python strings are [string]; [str.isdigit] is taken on ASCII digits.
    - Python dicts produced by [json] are association lists read by their
      first matching key; the dict built by [get_eoa_addresses_batch] is a
      [gmap].
    - Instants (the result of [time.time()], of [int(s)], of [int(s) / 1000]
      and of [datetime.timestamp()]) are exact rationals: rounding, range and
      digit-count limits of the interpreter's numbers are not modelled.
    - I/O is explicit: the state threaded through the code is the list of
      I/O events issued so far, and the outside world is an oracle that
      answers each call from that history.  Logging is left out.
    - Exceptions are the ones the code can meet on decoded JSON and on the
      calls it guards: [RequestException], [JSONDecodeError], [TypeError]
      and [AttributeError] on a value of the wrong shape, and whatever
      [fromisoformat] or the contract call raise. *)

From Stdlib Require Import ZArith QArith Qround String Ascii List Lia DecimalString
  DecimalPos.
From stdpp Require Import gmap strings list.

Set Warnings "-register-all".
Local Open Scope string_scope.
Local Open Scope list_scope.
Local Open Scope Z_scope.

(** ** Values decoded from JSON *)

(** What [response.json()] can return.  A float is carried by its [str()]
    text, the only way the collector ever looks at one apart from its
    truthiness. *)
Inductive json : Type :=
| JNull
| JBool (b : bool)
| JInt (n : Z)
| JFloat (repr : string)
| JStr (s : string)
| JList (items : list json)
| JDict (entries : list (string * json)).

(** Python truthiness, [bool(v)]. *)
Definition truthy (v : json) : bool :=
  match v with
  | JNull => false
  | JBool b => b
  | JInt n => negb (Z.eqb n 0)
  | JFloat r => negb (String.eqb r "0.0" || String.eqb r "-0.0")
  | JStr s => negb (String.eqb s "")
  | JList l => match l with [] => false | _ :: _ => true end
  | JDict d => match d with [] => false | _ :: _ => true end
  end.

(** [d.get(key)] on the entries of a dict: [None] when the key is absent. *)
Fixpoint dict_lookup (key : string) (d : list (string * json)) : option json :=
  match d with
  | [] => None
  | (k, v) :: rest => if String.eqb k key then Some v else dict_lookup key rest
  end.

(** [d.get(key, default)]. *)
Definition dict_get_default (key : string) (default : json)
    (d : list (string * json)) : json :=
  match dict_lookup key d with
  | Some v => v
  | None => default
  end.

(** A computation that may raise: [Raised] stands for an exception that
    leaves the enclosing function. *)
Inductive outcome (A : Type) : Type :=
| Ok (a : A)
| Raised.
Arguments Ok {A} a.
Arguments Raised {A}.

(** ** Text helpers *)

Definition is_ascii_digit (c : ascii) : bool :=
  let n := nat_of_ascii c in (48 <=? n)%nat && (n <=? 57)%nat.

Fixpoint all_digits (s : string) : bool :=
  match s with
  | EmptyString => true
  | String c rest => is_ascii_digit c && all_digits rest
  end.

(** [s.isdigit()]: non-empty and made of digits only. *)
Definition isdigit (s : string) : bool :=
  match s with
  | EmptyString => false
  | String _ _ => all_digits s
  end.

Definition digit_value (c : ascii) : Z := Z.of_nat (nat_of_ascii c) - 48.

Fixpoint int_of_digits_from (acc : Z) (s : string) : Z :=
  match s with
  | EmptyString => acc
  | String c rest => int_of_digits_from (10 * acc + digit_value c) rest
  end.

(** [int(s)] for a string of digits. *)
Definition int_of_digits (s : string) : Z := int_of_digits_from 0 s.

(** [s.replace('Z', '+00:00')]. *)
Fixpoint replace_Z (s : string) : string :=
  match s with
  | EmptyString => EmptyString
  | String c rest =>
      if Ascii.eqb c "Z"%char then "+00:00" +:+ replace_Z rest
      else String c (replace_Z rest)
  end.

(** [needle in haystack] on two strings: substring search. *)
Definition str_contains (needle haystack : string) : bool :=
  match String.index 0 needle haystack with
  | Some _ => true
  | None => false
  end.

(** [str(n)] for an integer. *)
Definition str_of_int (n : Z) : string := NilZero.string_of_int (Z.to_int n).

(** [int(x)] on a number: truncation towards zero. *)
Definition py_int (q : Q) : Z := Z.quot (Qnum q) (Z.pos (Qden q)).

(** ** The outside world *)

(** The I/O calls the collector makes. *)
Inductive event : Type :=
| EvGetEoa (peer_ids : list string)
    (* [self.contract.functions.getEoa(node_ids).call()] *)
| EvGet (url : string) (params : list (string * string))
    (* [self.session.get(url, params=..., timeout=10)] *)
| EvSleep (seconds : Z).
    (* [time.sleep(seconds)] *)

Definition history : Type := list event.

(** What [session.get] followed by [response.json()] gives. *)
Inductive response : Type :=
| RequestError
    (* [session.get] raises a [RequestException] *)
| Reply (status_code : Z) (body : option json).
    (* [body = None]: [response.json()] raises [JSONDecodeError] *)

(** What the [getEoa] call gives. *)
Inductive call_result : Type :=
| CallRaises
| CallReturns (eoa_addresses : list string).

(** The oracle: every answer may depend on all the calls made before. *)
Record world : Type := {
  session_get : history -> string -> list (string * string) -> response;
  getEoa_call : history -> list string -> call_result;
  time_time : history -> Q;
  datetime_now_isoformat : history -> string;
  (* [datetime.fromisoformat(s).timestamp()], [None] when it raises *)
  fromisoformat_timestamp : string -> option Q
}.

(** [Config] *)
Definition GENSYN_PEER_API_URL : string := "https://dashboard.gensyn.ai/api/v1/peer".

Definition zero_address : string := "0x0000000000000000000000000000000000000000".

(** ** [get_last_internal_tx_time] *)

Definition explorer : string := "https://gensyn-testnet.explorer.alchemy.com".

Definition api_endpoints (eoa_address : string) : list string :=
  [ explorer +:+ "/api/v2/addresses/" +:+ eoa_address +:+ "/internal-transactions";
    explorer +:+ "/api/v1/addresses/" +:+ eoa_address +:+ "/internal-transactions";
    explorer +:+ "/api/addresses/" +:+ eoa_address +:+ "/internal-transactions";
    explorer +:+ "/api/v2/addresses/" +:+ eoa_address +:+ "/internal_transactions";
    explorer +:+ "/api/v1/addresses/" +:+ eoa_address +:+ "/internal_transactions";
    explorer +:+ "/api/v2/addresses/" +:+ eoa_address +:+ "/transactions?filter=internal" ].

Definition possible_keys : list string :=
  ["items"; "transactions"; "data"; "result"; "internal_transactions"].

Definition timestamp_fields : list string :=
  ["timestamp"; "block_timestamp"; "created_at"; "time"; "block_time"].

(** Lines 150-153: the first key under which the dict holds a list. *)
Fixpoint first_list_under (keys : list string) (d : list (string * json)) : list json :=
  match keys with
  | [] => []
  | key :: rest =>
      match dict_lookup key d with
      | Some (JList l) => l
      | _ => first_list_under rest d
      end
  end.

(** Lines 145-153. *)
Definition extract_transactions (data : json) : list json :=
  match data with
  | JList l => l
  | JDict d => first_list_under possible_keys d
  | _ => []
  end.

Definition is_str (s : string) (v : json) : bool :=
  match v with
  | JStr s' => String.eqb s' s
  | _ => false
  end.

(** Line 161, [field in tx and tx[field]]: the value to read, if any.  On a
    transaction that is not a dict, [in] or the subscript raises
    [TypeError]. *)
Definition field_value (tx : json) (field : string) : outcome (option json) :=
  match tx with
  | JDict d =>
      match dict_lookup field d with
      | Some v => Ok (if truthy v then Some v else None)
      | None => Ok None
      end
  | JList l => if existsb (is_str field) l then Raised else Ok None
  | JStr s => if str_contains field s then Raised else Ok None
  | JNull | JBool _ | JInt _ | JFloat _ => Raised
  end.

Section Probe.

Variable w : world.

(** Lines 164-170 on the text of the field; [None] when the [try] block
    raises. *)
Definition parse_timestamp_str (timestamp_str : string) : option Q :=
  if isdigit timestamp_str then
    let timestamp := int_of_digits timestamp_str in
    if 1000000000000 <? timestamp
    then Some (inject_Z timestamp / 1000)%Q
    else Some (inject_Z timestamp)
  else fromisoformat_timestamp w (replace_Z timestamp_str).

(** Lines 162-170 on a truthy field value, through [str(tx[field])].  The
    text of a list or a dict opens with a bracket: it is neither a digit
    string nor a date. *)
Definition parse_timestamp (v : json) : option Q :=
  match v with
  | JStr s => parse_timestamp_str s
  | JInt n => parse_timestamp_str (str_of_int n)
  | JFloat r => fromisoformat_timestamp w (replace_Z r)
  | JBool b => parse_timestamp_str (if b then "True" else "False")
  | JNull => parse_timestamp_str "None"
  | JList _ | JDict _ => None
  end.

(** Lines 160-177 for one transaction: the instant read from the first
    field that is present, truthy and parses. *)
Fixpoint tx_timestamp (tx : json) (fields : list string) : outcome (option Q) :=
  match fields with
  | [] => Ok None
  | field :: rest =>
      match field_value tx field with
      | Raised => Raised
      | Ok None => tx_timestamp tx rest
      | Ok (Some v) =>
          match parse_timestamp v with
          | Some timestamp => Ok (Some timestamp)
          | None => tx_timestamp tx rest
          end
      end
  end.

(** Lines 172-173. *)
Definition newer (timestamp : Q) (latest_timestamp : option Q) : option Q :=
  match latest_timestamp with
  | None => Some timestamp
  | Some latest => if Qle_bool timestamp latest then Some latest else Some timestamp
  end.

(** Lines 156-177. *)
Fixpoint scan_transactions (transactions : list json) (latest_timestamp : option Q)
    : outcome (option Q) :=
  match transactions with
  | [] => Ok latest_timestamp
  | tx :: rest =>
      match tx_timestamp tx timestamp_fields with
      | Raised => Raised
      | Ok None => scan_transactions rest latest_timestamp
      | Ok (Some timestamp) => scan_transactions rest (newer timestamp latest_timestamp)
      end
  end.

(** Line 181. *)
Definition minutes_ago (current_time latest_timestamp : Q) : Z :=
  py_int ((current_time - latest_timestamp) / 60)%Q.

(** Lines 141-188, the body of the loop over the endpoints, on the answer
    [r] to the request: [Ok None] goes on to the next endpoint,
    [Ok (Some m)] is [return m], [Raised] leaves the loop for the outer
    handler.  [h] is the history once the request is made. *)
Definition endpoint_body (h : history) (r : response) : outcome (option Z) :=
  match r with
  | RequestError => Ok None
  | Reply status_code body =>
      if status_code =? 200 then
        match body with
        | None => Ok None
        | Some data =>
            match extract_transactions data with
            | [] => Ok None
            | transactions =>
                match scan_transactions transactions None with
                | Raised => Raised
                | Ok None => Ok None
                | Ok (Some latest_timestamp) =>
                    if Qeq_bool latest_timestamp 0 then Ok None
                    else Ok (Some (minutes_ago (time_time w h) latest_timestamp))
                end
            end
        end
      else Ok None
  end.

(** Lines 137-190. *)
Fixpoint probe_endpoints (endpoints : list string) (h : history)
    : outcome (option Z) * history :=
  match endpoints with
  | [] => (Ok None, h)
  | endpoint :: rest =>
      let h1 := h ++ [EvGet endpoint []] in
      match endpoint_body h1 (session_get w h endpoint []) with
      | Ok None => probe_endpoints rest h1
      | stop => (stop, h1)
      end
  end.

(** Lines 115-194. *)
Definition get_last_internal_tx_time (eoa_address : string) (h : history)
    : option Z * history :=
  if String.eqb eoa_address "" || String.eqb eoa_address zero_address then (None, h)
  else
    match probe_endpoints (api_endpoints eoa_address) h with
    | (Ok minutes, h') => (minutes, h')
    | (Raised, h') => (None, h')
    end.

End Probe.

(** ** [get_peer_info] *)

Section Collector.

Variable w : world.

Definition peer_params (node_id : string) : list (string * string) := [("id", node_id)].

(** Lines 67-82.  [Ok None] is the function's [None]; [Ok (Some d)] is the
    decoded object.  [raise_for_status] raises on a 4xx or 5xx status.  The
    handlers catch [RequestException] and [JSONDecodeError] only: on a body
    that decodes to something other than an object, [data.get] in the
    logging line raises [AttributeError], which leaves the function. *)
Definition get_peer_info (node_id : string) (h : history)
    : outcome (option (list (string * json))) * history :=
  let h1 := h ++ [EvGet GENSYN_PEER_API_URL (peer_params node_id)] in
  match session_get w h GENSYN_PEER_API_URL (peer_params node_id) with
  | RequestError => (Ok None, h1)
  | Reply status_code body =>
      if (400 <=? status_code) && (status_code <? 600) then (Ok None, h1)
      else
        match body with
        | None => (Ok None, h1)
        | Some (JDict data) => (Ok (Some data), h1)
        | Some _ => (Raised, h1)
        end
  end.

(** ** [get_eoa_addresses_batch] *)

(** The collector object, as far as the methods read it: [contract] is
    false when [__init__] set [self.contract = None]. *)
Record collector : Type := { contract : bool }.

(** Lines 98-105: the value stored for position [i]. *)
Definition address_at (eoa_addresses : list string) (i : nat) : option string :=
  match eoa_addresses !! i with
  | Some eoa_address =>
      if String.eqb eoa_address zero_address then None else Some eoa_address
  | None => None
  end.

(** Lines 95-105, from position [i] on. *)
Fixpoint fill_result (node_ids : list string) (i : nat) (eoa_addresses : list string)
    (result : gmap string (option string)) : gmap string (option string) :=
  match node_ids with
  | [] => result
  | node_id :: rest =>
      fill_result rest (S i) eoa_addresses (<[node_id := address_at eoa_addresses i]> result)
  end.

(** Line 113, [{node_id: None for node_id in node_ids}]. *)
Definition all_none (node_ids : list string) : gmap string (option string) :=
  fold_left (fun result node_id => <[node_id := None]> result) node_ids ∅.

(** Lines 84-113. *)
Definition get_eoa_addresses_batch (self : collector) (node_ids : list string)
    (h : history) : gmap string (option string) * history :=
  if negb (contract self) then (∅, h)
  else
    let h1 := h ++ [EvGetEoa node_ids] in
    match getEoa_call w h node_ids with
    | CallReturns eoa_addresses => (fill_result node_ids 0 eoa_addresses ∅, h1)
    | CallRaises => (all_none node_ids, h1)
    end.

(** [eoa_addresses.get(node_id)]: [None] for a missing key as for a key
    bound to [None]. *)
Definition addresses_get (eoa_addresses : gmap string (option string))
    (node_id : string) : option string :=
  match eoa_addresses !! node_id with
  | Some address => address
  | None => None
  end.

(** ** [collect_node_data] *)

(** The dict appended to [results]; the fields read from the status object
    keep whatever JSON value the API sent. *)
Record node_record : Type := {
  rec_id : string;
  rec_name : json;
  rec_address : option string;
  rec_reward : json;
  rec_score : json;
  rec_online : json;
  rec_last_tx_minutes_ago : option Z;
  rec_timestamp : string
}.

(** Lines 208-217. *)
Definition default_record (node_id : string) (address : option string)
    (timestamp : string) : node_record :=
  {| rec_id := node_id;
     rec_name := JStr "UNKNOWN";
     rec_address := address;
     rec_reward := JInt 0;
     rec_score := JInt 0;
     rec_online := JBool false;
     rec_last_tx_minutes_ago := None;
     rec_timestamp := timestamp |}.

(** Lines 228-237. *)
Definition status_record (node_id : string) (peer_info : list (string * json))
    (eoa_address : option string) (last_tx_minutes : option Z)
    (timestamp : string) : node_record :=
  {| rec_id := node_id;
     rec_name := dict_get_default "peerName" (JStr "Unknown") peer_info;
     rec_address := eoa_address;
     rec_reward := dict_get_default "score" (JInt 0) peer_info;
     rec_score := dict_get_default "reward" (JInt 0) peer_info;
     rec_online := dict_get_default "online" (JBool false) peer_info;
     rec_last_tx_minutes_ago := last_tx_minutes;
     rec_timestamp := timestamp |}.

(** The four marks of the log line. *)
Definition healthy : string := "🟢".
Definition unknown : string := "⚫".
Definition stale : string := "🔴".
Definition warning : string := "🟡".

(** Lines 241-247. *)
Definition status_mark (last_tx_minutes : option Z) : string :=
  match last_tx_minutes with
  | None => unknown
  | Some minutes =>
      if 30 <? minutes then stale
      else if 15 <? minutes then warning
      else healthy
  end.

(** Line 206, [not peer_info]. *)
Definition no_peer_info (peer_info : option (list (string * json))) : bool :=
  match peer_info with
  | None | Some [] => true
  | Some (_ :: _) => false
  end.

(** Lines 221-225: the probe runs only for a truthy address. *)
Definition probe_address (eoa_address : option string) (h : history)
    : option Z * history :=
  match eoa_address with
  | None => (None, h)
  | Some address =>
      if String.eqb address "" then (None, h)
      else get_last_internal_tx_time w address h
  end.

(** Lines 203-251, one turn of the loop on [node_id]. *)
Definition loop_body (eoa_addresses : gmap string (option string))
    (node_id : string) (results : list node_record) (h : history)
    : outcome (list node_record) * history :=
  match get_peer_info node_id h with
  | (Raised, h1) => (Raised, h1)
  | (Ok peer_info, h1) =>
      if no_peer_info peer_info then
        let result :=
          default_record node_id (addresses_get eoa_addresses node_id)
            (datetime_now_isoformat w h1) in
        (Ok (results ++ [result]), h1)
      else
        let eoa_address := addresses_get eoa_addresses node_id in
        let '(last_tx_minutes, h2) := probe_address eoa_address h1 in
        let result :=
          status_record node_id (default [] peer_info) eoa_address last_tx_minutes
            (datetime_now_isoformat w h2) in
        (Ok (results ++ [result]), h2 ++ [EvSleep 1])
  end.

(** Lines 202-251. *)
Fixpoint collect_loop (eoa_addresses : gmap string (option string))
    (node_ids : list string) (results : list node_record) (h : history)
    : outcome (list node_record) * history :=
  match node_ids with
  | [] => (Ok results, h)
  | node_id :: rest =>
      match loop_body eoa_addresses node_id results h with
      | (Ok results', h') => collect_loop eoa_addresses rest results' h'
      | (Raised, h') => (Raised, h')
      end
  end.

(** Lines 196-254. *)
Definition collect_node_data (self : collector) (node_ids : list string) (h : history)
    : outcome (list node_record) * history :=
  let '(eoa_addresses, h0) := get_eoa_addresses_batch self node_ids h in
  collect_loop eoa_addresses node_ids [] h0.

End Collector.

(** ** Vocabulary of the statements *)

(** The requests the probe issues for a list of endpoints, in order. *)
Definition requests (endpoints : list string) : history :=
  map (fun endpoint => EvGet endpoint []) endpoints.

(** No transaction of the list carries a timestamp that parses. *)
Definition no_timestamp (w : world) (transactions : list json) : Prop :=
  Forall (fun tx => tx_timestamp w tx timestamp_fields = Ok None) transactions.

(** An endpoint answer that gives the probe nothing to return: a failed
    request, a status other than 200, a body that does not decode, or a
    body whose transaction list (possibly absent or empty) has no timestamp
    that parses. *)
Inductive yields_nothing (w : world) : response -> Prop :=
| nothing_request_error :
    yields_nothing w RequestError
| nothing_status status_code body :
    status_code <> 200 -> yields_nothing w (Reply status_code body)
| nothing_undecodable :
    yields_nothing w (Reply 200 None)
| nothing_no_timestamp data :
    no_timestamp w (extract_transactions data) ->
    yields_nothing w (Reply 200 (Some data)).

(** [latest] is the greatest of the instants read from the transactions,
    each transaction counting for the first of its fields that parses. *)
Definition latest_of (w : world) (transactions : list json) (latest : Q) : Prop :=
  Forall (fun tx => tx_timestamp w tx timestamp_fields <> Raised) transactions /\
  Exists (fun tx => tx_timestamp w tx timestamp_fields = Ok (Some latest)) transactions /\
  Forall (fun tx => forall t, tx_timestamp w tx timestamp_fields = Ok (Some t) ->
                              (t <= latest)%Q) transactions.

(** An address the probe accepts: neither empty nor the zero address. *)
Definition resolved (eoa_address : string) : Prop :=
  eoa_address <> "" /\ eoa_address <> zero_address.

(** The answers of the status API that [get_peer_info] handles: every
    failure it catches (request error, 4xx or 5xx status, undecodable body)
    and every decoded object. *)
Definition status_answer_ok (r : response) : Prop :=
  match r with
  | RequestError => True
  | Reply _ None => True
  | Reply status_code (Some data) =>
      400 <= status_code < 600 \/ exists d, data = JDict d
  end.

Definition status_api_ok (w : world) : Prop :=
  forall h node_id,
    status_answer_ok (session_get w h GENSYN_PEER_API_URL (peer_params node_id)).

(** The batched chain call fails: the contract was never initialised, or
    the call raises. *)
Definition chain_call_fails (w : world) (self : collector) (node_ids : list string)
    (h : history) : Prop :=
  contract self = false \/ getEoa_call w h node_ids = CallRaises.

(** ** Worlds used in the examples *)

(** A world whose answers do not depend on the history: status requests
    (those that carry the [id] parameter) are answered by [status], the
    others by [explorer_answer]. *)
Definition fixed_world (status : string -> response)
    (explorer_answer : string -> response) (chain : call_result) (now : Q) : world :=
  {| session_get := fun _ url params =>
       match params with
       | (_, node_id) :: _ => status node_id
       | [] => explorer_answer url
       end;
     getEoa_call := fun _ _ => chain;
     time_time := fun _ => now;
     datetime_now_isoformat := fun _ => "2025-06-01T12:00:00";
     fromisoformat_timestamp := fun _ => None |}.

(** Answers given by the position of the endpoint in [api_endpoints]. *)
Fixpoint answer_by_endpoint (endpoints : list string) (answers : list response)
    (url : string) : response :=
  match endpoints, answers with
  | endpoint :: endpoints', answer :: answers' =>
      if String.eqb url endpoint then answer
      else answer_by_endpoint endpoints' answers' url
  | _, _ => Reply 404 None
  end.

Definition address_a : string := "0x1111111111111111111111111111111111111111".
Definition address_b : string := "0x2222222222222222222222222222222222222222".

Definition tx_at (timestamp : string) : json :=
  JDict [("hash", JStr "0xabc"); ("timestamp", JStr timestamp)].

Definition online_status (name : string) : response :=
  Reply 200 (Some (JDict [("peerName", JStr name); ("score", JInt 7);
                          ("reward", JInt 3); ("online", JBool true)])).

(** First endpoint fails, second answers an empty list, third answers one
    transaction ten minutes old. *)
Definition world_empty_then_data : world :=
  fixed_world online_status
    (answer_by_endpoint (api_endpoints address_a)
       [RequestError;
        Reply 200 (Some (JList []));
        Reply 200 (Some (JList [tx_at "1700000000"]))])
    (CallReturns [address_a]) 1700000600.


(** The contract answers two different addresses for the two positions of
    a roster; the explorer knows nothing. *)
Definition world_two_addresses : world :=
  fixed_world online_status (fun _ => Reply 404 None)
    (CallReturns [address_a; address_b]) 1700000600.

(** The contract answers a single address whatever the roster. *)
Definition world_one_address : world :=
  fixed_world online_status (fun _ => Reply 404 None)
    (CallReturns [address_a]) 1700000600.

(** The chain call raises. *)
Definition world_chain_down : world :=
  fixed_world online_status (fun _ => Reply 404 None) CallRaises 1700000600.

(** The status of node ["node-a"] cannot be fetched; the others are online. *)
Definition world_a_unavailable : world :=
  fixed_world
    (fun node_id => if String.eqb node_id "node-a" then RequestError
                    else online_status node_id)
    (fun _ => Reply 404 None)
    (CallReturns [address_a; address_b]) 1700000600.

Definition ready : collector := {| contract := true |}.
Definition uninitialised : collector := {| contract := false |}.

(** The status API answers 200 with a body that decodes to a list. *)
Definition world_status_list : world :=
  fixed_world (fun _ => Reply 200 (Some (JList []))) (fun _ => Reply 404 None)
    (CallReturns [address_a]) 1700000600.


(** ** [read_node_ids] *)

(** The ASCII characters [str.strip()] removes. *)
Definition is_space (c : ascii) : bool :=
  let n := nat_of_ascii c in
  ((9 <=? n)%nat && (n <=? 13)%nat) || ((28 <=? n)%nat && (n <=? 32)%nat).

Fixpoint lstrip (s : string) : string :=
  match s with
  | EmptyString => EmptyString
  | String c rest => if is_space c then lstrip rest else s
  end.

Fixpoint rstrip (s : string) : string :=
  match s with
  | EmptyString => EmptyString
  | String c rest =>
      match rstrip rest with
      | EmptyString => if is_space c then EmptyString else String c EmptyString
      | kept => String c kept
      end
  end.

(** [line.strip()]. *)
Definition strip (line : string) : string := rstrip (lstrip line).

(** What [open(filename)] and the iteration over the file give: the lines
    as the file object yields them, or one of the two handled failures. *)
Inductive file_result : Type :=
| FileNotFound
| FileFails
| FileLines (lines : list string).

(** Line 57, [[line.strip() for line in file if line.strip()]]. *)
Fixpoint stripped_lines (lines : list string) : list string :=
  match lines with
  | [] => []
  | line :: rest =>
      if String.eqb (strip line) "" then stripped_lines rest
      else strip line :: stripped_lines rest
  end.

(** Lines 54-65. *)
Definition read_node_ids (file : file_result) : list string :=
  match file with
  | FileLines lines => stripped_lines lines
  | FileNotFound | FileFails => []
  end.

(** ** Kinds of events *)

(** A request to the status API carries the [id] parameter; a request to
    the explorer carries none. *)
Definition is_status_request (e : event) : bool :=
  match e with
  | EvGet _ (_ :: _) => true
  | _ => false
  end.

Definition is_explorer_request (e : event) : bool :=
  match e with
  | EvGet _ [] => true
  | _ => false
  end.

Definition is_chain_call (e : event) : bool :=
  match e with
  | EvGetEoa _ => true
  | _ => false
  end.

Definition is_sleep (e : event) : bool :=
  match e with
  | EvSleep _ => true
  | _ => false
  end.

(** The status request for one identity. *)
Definition status_request (node_id : string) : event :=
  EvGet GENSYN_PEER_API_URL (peer_params node_id).

(** Every status fetch answers a non-empty object with a status that
    [raise_for_status] accepts. *)
Definition status_always_available (w : world) : Prop :=
  forall h node_id, exists status_code k v d,
    session_get w h GENSYN_PEER_API_URL (peer_params node_id) =
      Reply status_code (Some (JDict ((k, v) :: d))) /\
    ~ (400 <= status_code < 600).

(** First endpoint answers a list holding a number beside a dated
    transaction, second answers one transaction ten minutes old. *)
Definition world_scalar_item : world :=
  fixed_world online_status
    (answer_by_endpoint (api_endpoints address_a)
       [Reply 200 (Some (JList [tx_at "1700000000"; JInt 5]));
        Reply 200 (Some (JList [tx_at "1700000000"]))])
    (CallReturns [address_a]) 1700000600.

(** First endpoint answers one transaction dated zero, second answers one
    transaction ten minutes old. *)
Definition world_zero_timestamp : world :=
  fixed_world online_status
    (answer_by_endpoint (api_endpoints address_a)
       [Reply 200 (Some (JList [tx_at "0"]));
        Reply 200 (Some (JList [tx_at "1700000000"]))])
    (CallReturns [address_a]) 1700000600.

(** The status API answers the empty object. *)
Definition world_empty_status : world :=
  fixed_world (fun _ => Reply 200 (Some (JDict []))) (fun _ => Reply 404 None)
    (CallReturns [address_a; address_b]) 1700000600.

(** An item of a transaction list that is null, a boolean or a number. *)
Definition scalar_item (tx : json) : Prop :=
  match tx with
  | JNull | JBool _ | JInt _ | JFloat _ => True
  | _ => False
  end.


(** * Properties *)

(** ** Arithmetic of [int()] *)

Lemma py_int_nonneg (q : Q) : (0 <= q)%Q -> py_int q = Qfloor q /\ 0 <= py_int q.
Proof.
  destruct q as [n d]. unfold Qle, py_int, Qfloor. simpl. intros Hn.
  assert (0 <= n) by lia.
  rewrite Z.quot_div_nonneg by lia.
  split; [reflexivity | apply Z.div_pos; lia].
Qed.

Lemma py_int_opp (q : Q) : py_int (- q) = - py_int q.
Proof.
  destruct q as [n d]. unfold py_int. simpl.
  apply Z.quot_opp_l. lia.
Qed.

Lemma py_int_comp (q q' : Q) : (q == q')%Q -> py_int q = py_int q'.
Proof.
  intros Heq.
  destruct (Qlt_le_dec q 0) as [Hneg | Hpos].
  - assert (Hq : (0 <= - q)%Q) by (apply (Qopp_le_compat q 0); apply Qlt_le_weak; exact Hneg).
    assert (Hq' : (0 <= - q')%Q) by (rewrite <- Heq; exact Hq).
    apply py_int_nonneg in Hq as [Hq _]. apply py_int_nonneg in Hq' as [Hq' _].
    rewrite !py_int_opp in *.
    assert (Qfloor (- q) = Qfloor (- q')) by (rewrite Heq; reflexivity).
    lia.
  - assert (Hpos' : (0 <= q')%Q) by (rewrite <- Heq; exact Hpos).
    apply py_int_nonneg in Hpos as [-> _]. apply py_int_nonneg in Hpos' as [-> _].
    rewrite Heq. reflexivity.
Qed.

Lemma minutes_ago_comp (now latest latest' : Q) :
  (latest == latest')%Q -> minutes_ago now latest = minutes_ago now latest'.
Proof.
  intros Heq. unfold minutes_ago. apply py_int_comp. rewrite Heq. reflexivity.
Qed.

Lemma minutes_ago_past (now latest : Q) :
  (latest <= now)%Q ->
  minutes_ago now latest = Qfloor ((now - latest) / 60) /\ 0 <= minutes_ago now latest.
Proof.
  intros Hle. unfold minutes_ago. apply py_int_nonneg.
  apply Qle_shift_div_l; [reflexivity |].
  rewrite Qmult_0_l. unfold Qminus. rewrite <- Qle_minus_iff. exact Hle.
Qed.

(** ** Health classification *)

(** C8. The mark is a function of [last_tx_minutes] alone: no value maps to
    unknown, a value above 30 to stale, a value from 16 to 30 to warning, a
    value of at most 15 to healthy; so 47 is stale, 30 is warning and 15 is
    healthy.  The four marks are pairwise distinct. *)
Theorem status_mark_classification :
  status_mark None = unknown /\
  (forall minutes, 30 < minutes -> status_mark (Some minutes) = stale) /\
  (forall minutes, 16 <= minutes <= 30 -> status_mark (Some minutes) = warning) /\
  (forall minutes, minutes <= 15 -> status_mark (Some minutes) = healthy) /\
  status_mark (Some 47) = stale /\
  status_mark (Some 30) = warning /\
  status_mark (Some 15) = healthy /\
  NoDup [healthy; warning; stale; unknown].
Proof.
  repeat split; try reflexivity.
  - intros minutes Hm. unfold status_mark.
    destruct (Z.ltb_spec 30 minutes); [reflexivity | lia].
  - intros minutes Hm. unfold status_mark.
    destruct (Z.ltb_spec 30 minutes); [lia |].
    destruct (Z.ltb_spec 15 minutes); [reflexivity | lia].
  - intros minutes Hm. unfold status_mark.
    destruct (Z.ltb_spec 30 minutes); [lia |].
    destruct (Z.ltb_spec 15 minutes); [lia | reflexivity].
  - repeat constructor; rewrite ?elem_of_cons, ?elem_of_nil; intuition discriminate.
Qed.

Lemma status_mark_classification_witness :
  status_mark (Some 31) = stale /\
  status_mark (Some 16) = warning /\
  status_mark (Some (-4)) = healthy.
Proof.
  destruct status_mark_classification as (_ & Hstale & Hwarning & Hhealthy & _).
  split; [apply Hstale; lia |].
  split; [apply Hwarning; lia | apply Hhealthy; lia].
Defined.

(** ** Timestamps *)




(** ** Scanning a transaction list *)

Lemma scan_no_timestamp (w : world) (transactions : list json) (acc : option Q) :
  no_timestamp w transactions -> scan_transactions w transactions acc = Ok acc.
Proof.
  unfold no_timestamp. induction 1 as [| tx txs Htx _ IH]; cbn [scan_transactions].
  - reflexivity.
  - rewrite Htx. exact IH.
Qed.

Lemma newer_spec (t : Q) (acc : option Q) :
  exists m, newer t acc = Some m /\
    (m = t \/ acc = Some m) /\ (t <= m)%Q /\
    (forall a, acc = Some a -> (a <= m)%Q).
Proof.
  destruct acc as [a |]; simpl.
  - destruct (Qle_bool t a) eqn:Hle.
    + exists a. apply Qle_bool_iff in Hle.
      repeat split; auto. intros a' [= <-]. apply Qle_refl.
    + exists t. assert (Hlt : (a < t)%Q).
      { apply Qnot_le_lt. intros Hc. apply Qle_bool_iff in Hc. congruence. }
      repeat split; auto using Qle_refl.
      intros a' [= <-]. apply Qlt_le_weak. exact Hlt.
  - exists t. repeat split; auto using Qle_refl. discriminate.
Qed.

(** The scan returns the accumulator or an instant of the list, and
    whatever it returns bounds the accumulator and every instant. *)
Lemma scan_bounds (w : world) (transactions : list json) :
  Forall (fun tx => tx_timestamp w tx timestamp_fields <> Raised) transactions ->
  forall acc, exists r,
    scan_transactions w transactions acc = Ok r /\
    (r = acc \/
     exists t, r = Some t /\
       Exists (fun tx => tx_timestamp w tx timestamp_fields = Ok (Some t)) transactions) /\
    Forall (fun tx => forall t, tx_timestamp w tx timestamp_fields = Ok (Some t) ->
                      exists l, r = Some l /\ (t <= l)%Q) transactions /\
    (forall a, acc = Some a -> exists l, r = Some l /\ (a <= l)%Q).
Proof.
  induction 1 as [| tx txs Htx _ IH]; intros acc; cbn [scan_transactions].
  - exists acc. repeat split; auto.
    intros a ->. exists a. split; [reflexivity | apply Qle_refl].
  - destruct (tx_timestamp w tx timestamp_fields) as [[t |] |] eqn:Hts;
      [| | congruence].
    + destruct (newer_spec t acc) as (m & Hm & Horigin & Htm & Hacc).
      destruct (IH (newer t acc)) as (r & Hscan & Hfrom & Hall & Hge).
      destruct (Hge m Hm) as (l & Hr & Hml). subst r.
      exists (Some l). split; [exact Hscan |]. split; [| split].
      * destruct Hfrom as [Hsame | (t' & Ht' & Hex)].
        -- assert (l = m) by congruence. subst l.
           destruct Horigin as [Hmt | Hacc_m]; [right | left; congruence].
           exists m. split; [reflexivity |]. apply Exists_cons_hd. congruence.
        -- right. exists t'. split; [exact Ht' | apply Exists_cons_tl; exact Hex].
      * constructor; [| exact Hall].
        intros t' Ht'. exists l. split; [reflexivity |].
        assert (t' = t) by congruence. subst t'.
        eapply Qle_trans; eassumption.
      * intros a Ha. exists l. split; [reflexivity |].
        eapply Qle_trans; [apply (Hacc a Ha) | exact Hml].
    + destruct (IH acc) as (r & Hscan & Hfrom & Hall & Hge).
      exists r. split; [exact Hscan |]. split; [| split]; auto.
      * destruct Hfrom as [Hsame | (t & Ht & Hex)]; [left; exact Hsame | right].
        exists t. split; [exact Ht | apply Exists_cons_tl; exact Hex].
      * constructor; [| exact Hall]. intros t Ht. congruence.
Qed.

Lemma scan_latest (w : world) (transactions : list json) (latest : Q) :
  latest_of w transactions latest ->
  exists l, scan_transactions w transactions None = Ok (Some l) /\ (l == latest)%Q.
Proof.
  intros (Hread & Hex & Hmax).
  destruct (scan_bounds w transactions Hread None) as (r & Hscan & Hfrom & Hall & _).
  apply Exists_exists in Hex as (tx & Hin & Htx).
  rewrite Forall_forall in Hall.
  destruct (Hall tx Hin latest Htx) as (l & -> & Hle).
  exists l. split; [exact Hscan |].
  destruct Hfrom as [Hnone | (t & Ht & Hex')]; [discriminate Hnone |].
  assert (t = l) by congruence. subst t.
  apply Exists_exists in Hex' as (tx' & Hin' & Htx').
  rewrite Forall_forall in Hmax.
  apply Qle_antisym; [apply (Hmax tx' Hin' l Htx') | exact Hle].
Qed.

(** ** The loop over the endpoints *)

Lemma yields_nothing_skip (w : world) (h : history) (r : response) :
  yields_nothing w r -> endpoint_body w h r = Ok None.
Proof.
  intros [| status_code body Hstatus | | data Hnone]; unfold endpoint_body.
  - reflexivity.
  - destruct (Z.eqb_spec status_code 200); [contradiction | reflexivity].
  - reflexivity.
  - change (200 =? 200) with true. cbv iota.
    pose proof (scan_no_timestamp w _ None Hnone) as Hscan.
    destruct (extract_transactions data); [reflexivity |].
    rewrite Hscan. reflexivity.
Qed.

Lemma probe_endpoints_skip (w : world) (pre rest : list string) :
  forall h,
    (forall i e, pre !! i = Some e ->
       yields_nothing w (session_get w (h ++ requests (take i pre)) e [])) ->
    probe_endpoints w (pre ++ rest) h = probe_endpoints w rest (h ++ requests pre).
Proof.
  induction pre as [| e pre IH]; intros h Hpre; simpl.
  - rewrite app_nil_r. reflexivity.
  - pose proof (Hpre 0%nat e eq_refl) as H0. simpl in H0. rewrite app_nil_r in H0.
    rewrite (yields_nothing_skip w _ _ H0).
    rewrite IH.
    + rewrite <- app_assoc. reflexivity.
    + intros i e' Hi. specialize (Hpre (S i) e' Hi). simpl in Hpre.
      rewrite <- app_assoc. exact Hpre.
Qed.



Lemma resolved_guard (eoa_address : string) :
  resolved eoa_address ->
  String.eqb eoa_address "" || String.eqb eoa_address zero_address = false.
Proof.
  intros [Hne Hnz].
  apply String.eqb_neq in Hne. apply String.eqb_neq in Hnz.
  rewrite Hne, Hnz. reflexivity.
Qed.




Lemma resolved_address_a : resolved address_a.
Proof. split; discriminate. Defined.





(** ** The address dict *)

Lemma fill_result_notin (eoa_addresses : list string) (node_ids : list string) :
  forall (i : nat) (result : gmap string (option string)) (node_id : string),
    node_id ∉ node_ids ->
    fill_result node_ids i eoa_addresses result !! node_id = result !! node_id.
Proof.
  induction node_ids as [| x rest IH]; intros i result node_id Hnotin; simpl.
  - reflexivity.
  - apply not_elem_of_cons in Hnotin as [Hne Hrest].
    rewrite IH by exact Hrest. apply lookup_insert_ne. congruence.
Qed.

(** After the loop an identity is bound to the value stored for its last
    position. *)
Lemma fill_result_last (eoa_addresses : list string) (node_ids : list string) :
  forall (i : nat) (result : gmap string (option string)) (j : nat) (node_id : string),
    node_ids !! j = Some node_id ->
    (forall j', (j < j')%nat -> node_ids !! j' <> Some node_id) ->
    fill_result node_ids i eoa_addresses result !! node_id =
      Some (address_at eoa_addresses (i + j)).
Proof.
  induction node_ids as [| x rest IH]; intros i result j node_id Hj Hlast.
  - discriminate Hj.
  - destruct j as [| j]; simpl in *.
    + injection Hj as ->.
      rewrite fill_result_notin.
      * rewrite lookup_insert_eq, Nat.add_0_r. reflexivity.
      * intros Hin. apply list_elem_of_lookup in Hin as [k Hk].
        apply (Hlast (S k)); [lia | exact Hk].
    + rewrite (IH (S i) _ j node_id Hj).
      * f_equal. f_equal. lia.
      * intros j' Hlt. apply (Hlast (S j')). lia.
Qed.

Lemma last_occurrence (node_ids : list string) :
  forall (i : nat) (node_id : string),
    node_ids !! i = Some node_id ->
    exists j, (i <= j)%nat /\ node_ids !! j = Some node_id /\
      forall j', (j < j')%nat -> node_ids !! j' <> Some node_id.
Proof.
  induction node_ids as [| x rest IH]; intros i node_id Hi.
  - discriminate Hi.
  - destruct i as [| i]; simpl in Hi.
    + injection Hi as ->.
      destruct (decide (node_id ∈ rest)) as [Hin | Hnotin].
      * apply list_elem_of_lookup in Hin as [k Hk].
        destruct (IH k node_id Hk) as (j & _ & Hj & Hlast).
        exists (S j). split; [lia |]. split; [exact Hj |].
        intros [| j'] Hlt; [lia |]. simpl. apply Hlast. lia.
      * exists 0%nat. split; [lia |]. split; [reflexivity |].
        intros [| j'] Hlt; [lia |]. simpl. intros Hk.
        apply Hnotin, list_elem_of_lookup. eauto.
    + destruct (IH i node_id Hi) as (j & Hle & Hj & Hlast).
      exists (S j). split; [lia |]. split; [exact Hj |].
      intros [| j'] Hlt; [lia |]. simpl. apply Hlast. lia.
Qed.

Lemma address_at_beyond (eoa_addresses : list string) (i : nat) :
  (length eoa_addresses <= i)%nat -> address_at eoa_addresses i = None.
Proof.
  intros Hle. unfold address_at. rewrite lookup_ge_None_2 by exact Hle. reflexivity.
Qed.

Lemma fold_none_lookup (node_ids : list string) :
  forall (result : gmap string (option string)) (node_id : string),
    fold_left (fun result node_id => <[node_id := None]> result) node_ids result
      !! node_id =
    if decide (node_id ∈ node_ids) then Some None else result !! node_id.
Proof.
  induction node_ids as [| x rest IH]; intros result node_id; simpl.
  - reflexivity.
  - rewrite IH. destruct (decide (node_id ∈ rest)) as [Hin | Hnotin].
    + rewrite decide_True by (right; exact Hin). reflexivity.
    + destruct (decide (x = node_id)) as [-> | Hne].
      * rewrite decide_True by left. apply lookup_insert_eq.
      * rewrite decide_False by (rewrite elem_of_cons; intuition congruence).
        apply lookup_insert_ne. exact Hne.
Qed.

Lemma all_none_get (node_ids : list string) (node_id : string) :
  addresses_get (all_none node_ids) node_id = None.
Proof.
  unfold addresses_get, all_none. rewrite fold_none_lookup.
  destruct (decide (node_id ∈ node_ids)); [reflexivity |].
  rewrite lookup_empty. reflexivity.
Qed.

Lemma failed_batch_get (w : world) (self : collector) (node_ids : list string)
    (h : history) (node_id : string) :
  chain_call_fails w self node_ids h ->
  addresses_get (get_eoa_addresses_batch w self node_ids h).1 node_id = None.
Proof.
  intros Hfail. unfold get_eoa_addresses_batch.
  destruct (contract self) eqn:Hcontract; simpl.
  - destruct Hfail as [Hoff | Hraises]; [congruence |].
    rewrite Hraises. simpl. apply all_none_get.
  - unfold addresses_get. rewrite lookup_empty. reflexivity.
Qed.

(** ** The reconciliation loop *)

Lemma get_peer_info_history (w : world) (node_id : string) (h : history) :
  (get_peer_info w node_id h).2 = h ++ [EvGet GENSYN_PEER_API_URL (peer_params node_id)].
Proof.
  unfold get_peer_info.
  destruct (session_get w h GENSYN_PEER_API_URL (peer_params node_id))
    as [| status_code [[] |]]; simpl;
    try destruct ((400 <=? status_code) && (status_code <? 600)); reflexivity.
Qed.

Lemma get_peer_info_total (w : world) (node_id : string) (h : history) :
  status_api_ok w ->
  exists peer_info, (get_peer_info w node_id h).1 = Ok peer_info.
Proof.
  intros Hok. specialize (Hok h node_id). unfold get_peer_info.
  destruct (session_get w h GENSYN_PEER_API_URL (peer_params node_id))
    as [| status_code [data |]]; simpl in *.
  - eauto.
  - destruct ((400 <=? status_code) && (status_code <? 600)) eqn:Hstatus; [eauto |].
    destruct Hok as [Hrange | [d ->]]; [lia | eauto].
  - destruct ((400 <=? status_code) && (status_code <? 600)); eauto.
Qed.

(** A turn of the loop that does not raise appends one record, for the
    identity it was given and with the address the dict holds for it. *)
Lemma loop_body_appends (w : world) (eoa_addresses : gmap string (option string))
    (node_id : string) (results results' : list node_record) (h h' : history) :
  loop_body w eoa_addresses node_id results h = (Ok results', h') ->
  exists r, results' = results ++ [r] /\ rec_id r = node_id /\
    rec_address r = addresses_get eoa_addresses node_id.
Proof.
  unfold loop_body.
  destruct (get_peer_info w node_id h) as [[peer_info |] h1]; [| discriminate].
  destruct (no_peer_info peer_info).
  - intros [= <- <-]. eexists. repeat split.
  - destruct (probe_address w (addresses_get eoa_addresses node_id) h1)
      as [last_tx_minutes h2].
    intros [= <- <-]. eexists. repeat split.
Qed.

Lemma loop_body_total (w : world) (eoa_addresses : gmap string (option string))
    (node_id : string) (results : list node_record) (h : history) :
  status_api_ok w ->
  exists results' h', loop_body w eoa_addresses node_id results h = (Ok results', h').
Proof.
  intros Hok. unfold loop_body.
  destruct (get_peer_info_total w node_id h Hok) as [peer_info Hpeer].
  destruct (get_peer_info w node_id h) as [o h1]. simpl in Hpeer. subst o.
  destruct (no_peer_info peer_info); [eauto |].
  destruct (probe_address w (addresses_get eoa_addresses node_id) h1); eauto.
Qed.

Lemma collect_loop_records (w : world) (eoa_addresses : gmap string (option string))
    (node_ids : list string) :
  forall (results results' : list node_record) (h h' : history),
    collect_loop w eoa_addresses node_ids results h = (Ok results', h') ->
    exists new, results' = results ++ new /\ map rec_id new = node_ids /\
      Forall (fun r => rec_address r = addresses_get eoa_addresses (rec_id r)) new.
Proof.
  induction node_ids as [| node_id rest IH]; intros results results' h h'; simpl.
  - intros [= <- <-]. exists []. rewrite app_nil_r. repeat split. constructor.
  - destruct (loop_body w eoa_addresses node_id results h) as [[results1 |] h1] eqn:Hbody;
      [| discriminate].
    intros Hrest.
    apply loop_body_appends in Hbody as (r & -> & Hid & Haddr).
    apply IH in Hrest as (new & -> & Hids & Hall).
    exists (r :: new). rewrite <- app_assoc. simpl.
    split; [reflexivity |]. split; [congruence |].
    constructor; [congruence | exact Hall].
Qed.

Lemma collect_loop_total (w : world) (eoa_addresses : gmap string (option string))
    (node_ids : list string) :
  status_api_ok w ->
  forall (results : list node_record) (h : history),
    exists results' h', collect_loop w eoa_addresses node_ids results h = (Ok results', h').
Proof.
  intros Hok. induction node_ids as [| node_id rest IH]; intros results h; simpl.
  - eauto.
  - destruct (loop_body_total w eoa_addresses node_id results h Hok)
      as (results1 & h1 & ->).
    apply IH.
Qed.

Lemma collect_loop_app (w : world) (eoa_addresses : gmap string (option string))
    (pre post : list string) :
  forall (results results1 : list node_record) (h h1 : history),
    collect_loop w eoa_addresses pre results h = (Ok results1, h1) ->
    collect_loop w eoa_addresses (pre ++ post) results h =
      collect_loop w eoa_addresses post results1 h1.
Proof.
  induction pre as [| node_id pre IH]; intros results results1 h h1; simpl.
  - intros [= <- <-]. reflexivity.
  - destruct (loop_body w eoa_addresses node_id results h) as [[results' |] h'];
      [apply IH | discriminate].
Qed.

(** What [collect_node_data] returns when no status fetch raises. *)
Lemma collect_node_data_records (w : world) (self : collector) (node_ids : list string)
    (h : history) (results : list node_record) (h' : history) :
  collect_node_data w self node_ids h = (Ok results, h') ->
  map rec_id results = node_ids /\
  Forall (fun r => rec_address r =
            addresses_get (get_eoa_addresses_batch w self node_ids h).1 (rec_id r))
         results.
Proof.
  unfold collect_node_data.
  destruct (get_eoa_addresses_batch w self node_ids h) as [eoa_addresses h0].
  intros Hloop. apply collect_loop_records in Hloop as (new & -> & Hids & Hall).
  simpl. auto.
Qed.

Lemma collect_node_data_total (w : world) (self : collector) (node_ids : list string)
    (h : history) :
  status_api_ok w ->
  exists results h', collect_node_data w self node_ids h = (Ok results, h').
Proof.
  intros Hok. unfold collect_node_data.
  destruct (get_eoa_addresses_batch w self node_ids h) as [eoa_addresses h0].
  apply collect_loop_total. exact Hok.
Qed.

(** The status API of the example worlds answers an object or fails. *)
Lemma fixed_world_status_ok (status : string -> response)
    (explorer_answer : string -> response) (chain : call_result) (now : Q) :
  (forall node_id, status_answer_ok (status node_id)) ->
  status_api_ok (fixed_world status explorer_answer chain now).
Proof. intros Hstatus h node_id. apply Hstatus. Defined.

Lemma online_status_ok (name : string) : status_answer_ok (online_status name).
Proof. right. eexists. reflexivity. Defined.


(** ** Record count and order *)

(** When no status fetch raises (each one fails in a way [get_peer_info]
    catches, or answers an object), [collect_node_data] returns one record
    per roster entry, in roster order, whatever the chain call and the
    explorer do. *)
Lemma records_follow_roster (w : world) (self : collector)
    (node_ids : list string) (h : history) :
  status_api_ok w ->
  exists results h',
    collect_node_data w self node_ids h = (Ok results, h') /\
    map rec_id results = node_ids /\
    length results = length node_ids.
Proof.
  intros Hok.
  destruct (collect_node_data_total w self node_ids h Hok) as (results & h' & Hrun).
  exists results, h'. split; [exact Hrun |].
  apply collect_node_data_records in Hrun as [Hids _].
  split; [exact Hids |].
  rewrite <- Hids, length_map. reflexivity.
Qed.

(** C9: the code at the failing input.  The status API answers 200 with a
    body that decodes to a list.  [data.get] in the logging line of
    [get_peer_info] raises, neither handler catches it, and
    [collect_node_data], which has no handler, returns no record for a
    roster of one entry. *)
Lemma non_object_status_aborts_cycle :
  session_get world_status_list [EvGetEoa ["node-a"]] GENSYN_PEER_API_URL
    (peer_params "node-a") = Reply 200 (Some (JList [])) /\
  (get_peer_info world_status_list "node-a" [EvGetEoa ["node-a"]]).1 = Raised /\
  (collect_node_data world_status_list ready ["node-a"] []).1 = Raised.
Proof. vm_compute. repeat split; reflexivity. Qed.

(** ** Chain failure *)

(** C2. When the batched chain call fails (contract never initialised, or
    the call raises), [get_eoa_addresses_batch] does not raise and its
    result gives null for every identity: the dict binds every identity of
    the roster to null when the call raises, and is empty, so that [get]
    answers null, when the contract was never initialised.  Every record
    of the cycle then has a null address, whatever the status fetches
    give. *)
Theorem chain_failure_gives_null_addresses (w : world) (self : collector)
    (node_ids : list string) (h : history) :
  chain_call_fails w self node_ids h ->
  (forall node_id,
     addresses_get (get_eoa_addresses_batch w self node_ids h).1 node_id = None) /\
  (contract self = true ->
   forall node_id, node_id ∈ node_ids ->
     (get_eoa_addresses_batch w self node_ids h).1 !! node_id = Some None) /\
  (contract self = false ->
   (get_eoa_addresses_batch w self node_ids h).1 = ∅) /\
  (forall results h',
     collect_node_data w self node_ids h = (Ok results, h') ->
     Forall (fun r => rec_address r = None) results) /\
  (status_api_ok w ->
   exists results h',
     collect_node_data w self node_ids h = (Ok results, h') /\
     map rec_id results = node_ids /\
     Forall (fun r => rec_address r = None) results).
Proof.
  intros Hfail.
  assert (Hnull : forall results h',
             collect_node_data w self node_ids h = (Ok results, h') ->
             Forall (fun r => rec_address r = None) results).
  { intros results h' Hrun.
    apply collect_node_data_records in Hrun as [_ Hall].
    eapply Forall_impl; [exact Hall |].
    intros r ->. apply failed_batch_get. exact Hfail. }
  split; [| split; [| split; [| split]]].
  - intros node_id. apply failed_batch_get. exact Hfail.
  - intros Hready node_id Hin. unfold get_eoa_addresses_batch.
    destruct Hfail as [Hoff | Hraises]; [congruence |].
    rewrite Hready, Hraises. simpl. unfold all_none.
    rewrite fold_none_lookup, decide_True by exact Hin. reflexivity.
  - intros Hoff. unfold get_eoa_addresses_batch. rewrite Hoff. reflexivity.
  - exact Hnull.
  - intros Hok.
    destruct (collect_node_data_total w self node_ids h Hok) as (results & h' & Hrun).
    exists results, h'. split; [exact Hrun |]. split.
    + apply (collect_node_data_records _ _ _ _ _ _ Hrun).
    + apply (Hnull _ _ Hrun).
Qed.

Lemma world_chain_down_ok : status_api_ok world_chain_down.
Proof. apply fixed_world_status_ok, online_status_ok. Defined.

Lemma chain_failure_gives_null_addresses_witness :
  addresses_get
    (get_eoa_addresses_batch world_chain_down ready ["node-a"; "node-b"] []).1
    "node-a" = None /\
  exists results h',
    collect_node_data world_chain_down ready ["node-a"; "node-b"] [] = (Ok results, h') /\
    map rec_id results = ["node-a"; "node-b"] /\
    Forall (fun r => rec_address r = None) results.
Proof.
  destruct (chain_failure_gives_null_addresses world_chain_down ready
              ["node-a"; "node-b"] [] (or_intror eq_refl))
    as (Hget & _ & _ & _ & Hrun).
  split; [apply Hget | apply Hrun, world_chain_down_ok].
Defined.

(** ** Short address array *)

(** C10. When the chain call returns fewer addresses than the roster has
    entries, the result still binds every identity of the roster, and an
    identity at a position beyond the returned array is bound to null; the
    function returns normally. *)
Theorem short_address_array_gives_null (w : world) (self : collector)
    (node_ids : list string) (h : history) (eoa_addresses : list string) :
  contract self = true ->
  getEoa_call w h node_ids = CallReturns eoa_addresses ->
  (length eoa_addresses < length node_ids)%nat ->
  exists result,
    get_eoa_addresses_batch w self node_ids h = (result, h ++ [EvGetEoa node_ids]) /\
    (forall node_id, node_id ∈ node_ids -> is_Some (result !! node_id)) /\
    (forall i node_id,
       node_ids !! i = Some node_id ->
       (length eoa_addresses <= i)%nat ->
       result !! node_id = Some None).
Proof.
  intros Hready Hcall _. unfold get_eoa_addresses_batch.
  rewrite Hready, Hcall. simpl. eexists. split; [reflexivity |]. split.
  - intros node_id Hin. apply list_elem_of_lookup in Hin as [i Hi].
    destruct (last_occurrence node_ids i node_id Hi) as (j & _ & Hj & Hlast).
    rewrite (fill_result_last eoa_addresses node_ids 0 ∅ j node_id Hj Hlast). eauto.
  - intros i node_id Hi Hbeyond.
    destruct (last_occurrence node_ids i node_id Hi) as (j & Hle & Hj & Hlast).
    rewrite (fill_result_last eoa_addresses node_ids 0 ∅ j node_id Hj Hlast).
    rewrite address_at_beyond by (simpl; lia). reflexivity.
Qed.

Lemma short_address_array_gives_null_witness :
  exists result,
    get_eoa_addresses_batch world_one_address ready ["node-a"; "node-b"] [] =
      (result, [EvGetEoa ["node-a"; "node-b"]]) /\
    result !! "node-b" = Some None.
Proof.
  destruct (short_address_array_gives_null world_one_address ready
              ["node-a"; "node-b"] [] [address_a] eq_refl eq_refl)
    as (result & Hrun & _ & Hnull).
  - simpl. lia.
  - exists result. split; [exact Hrun |].
    apply (Hnull 1%nat "node-b"); [reflexivity | simpl; lia].
Defined.

(** ** Duplicate identities *)

Lemma world_two_addresses_ok : status_api_ok world_two_addresses.
Proof. apply fixed_world_status_ok, online_status_ok. Defined.

(** C3, as stated, fails.  The roster holds the same identity twice and the
    contract returns a different address for each position: both records
    carry the address of the second position, the first record does not
    carry the address of its own. *)
Lemma duplicate_identity_shares_last_address :
  getEoa_call world_two_addresses [] ["node-a"; "node-a"] =
    CallReturns [address_a; address_b] /\
  address_a <> address_b /\
  exists results h',
    collect_node_data world_two_addresses ready ["node-a"; "node-a"] [] =
      (Ok results, h') /\
    map rec_address results = [Some address_b; Some address_b].
Proof.
  split; [reflexivity |]. split; [discriminate |].
  eexists _, _. split; vm_compute; reflexivity.
Qed.

(** C3, amended.  The addresses are stored in a dict keyed by identity, so
    every occurrence of an identity receives the address the contract
    returned at the LAST position of that identity in the roster (null when
    that position is beyond the returned array or holds the zero address);
    two occurrences of one identity always carry the same address. *)
Theorem duplicate_identity_takes_last_position (w : world) (self : collector)
    (node_ids : list string) (h : history) (eoa_addresses : list string) :
  contract self = true ->
  getEoa_call w h node_ids = CallReturns eoa_addresses ->
  (forall results h',
     collect_node_data w self node_ids h = (Ok results, h') ->
     (forall i j node_id,
        node_ids !! i = Some node_id ->
        node_ids !! j = Some node_id ->
        (forall j', (j < j')%nat -> node_ids !! j' <> Some node_id) ->
        exists r, results !! i = Some r /\ rec_id r = node_id /\
          rec_address r = address_at eoa_addresses j) /\
     (forall i i' r r',
        results !! i = Some r -> results !! i' = Some r' ->
        rec_id r = rec_id r' -> rec_address r = rec_address r')) /\
  (status_api_ok w ->
   exists results h', collect_node_data w self node_ids h = (Ok results, h')).
Proof.
  intros Hready Hcall.
  split; [| apply collect_node_data_total].
  intros results h' Hrun.
  apply collect_node_data_records in Hrun as [Hids Hall].
  rewrite Forall_forall in Hall.
  split.
  - intros i j node_id Hi Hj Hlast.
    assert (Hr : exists r, results !! i = Some r /\ rec_id r = node_id).
    { rewrite <- Hids in Hi. rewrite list_lookup_fmap in Hi.
      destruct (results !! i) as [r |]; [| discriminate].
      exists r. split; [reflexivity |]. simpl in Hi. congruence. }
    destruct Hr as (r & Hr & Hid). exists r. split; [exact Hr |]. split; [exact Hid |].
    rewrite (Hall r) by (apply list_elem_of_lookup; eauto).
    rewrite Hid. unfold get_eoa_addresses_batch. rewrite Hready, Hcall. simpl.
    unfold addresses_get.
    rewrite (fill_result_last eoa_addresses node_ids 0 ∅ j node_id Hj Hlast).
    reflexivity.
  - intros i i' r r' Hr Hr' Hid.
    rewrite (Hall r) by (apply list_elem_of_lookup; eauto).
    rewrite (Hall r') by (apply list_elem_of_lookup; eauto).
    rewrite Hid. reflexivity.
Qed.

Lemma duplicate_identity_takes_last_position_witness :
  exists results h',
    collect_node_data world_two_addresses ready ["node-a"; "node-a"] [] =
      (Ok results, h') /\
    exists r, results !! 0%nat = Some r /\ rec_id r = "node-a" /\
      rec_address r = address_at [address_a; address_b] 1.
Proof.
  destruct (duplicate_identity_takes_last_position world_two_addresses ready
              ["node-a"; "node-a"] [] [address_a; address_b] eq_refl eq_refl)
    as (Hlast & Hruns).
  destruct (Hruns world_two_addresses_ok) as (results & h' & Hrun).
  exists results, h'. split; [exact Hrun |].
  apply (proj1 (Hlast results h' Hrun) 0%nat 1%nat "node-a");
    [reflexivity | reflexivity |].
  intros [| [| j']] Hlt; try lia; discriminate.
Defined.

(** ** Unavailable status *)

(** C5. When the status fetch of a roster entry returns unavailable, the
    turn of the loop on that entry issues the status request and nothing
    else (no explorer request, hence no probe), and appends the default
    record: name ["UNKNOWN"], both scores 0, offline, no activity; this
    whether or not an address was resolved for the entry.  The record sits
    at the entry's position in the returned list. *)
Theorem unavailable_status_gives_default_record (w : world)
    (eoa_addresses : gmap string (option string)) (pre : list string)
    (node_id : string) (post : list string) (results1 : list node_record)
    (h0 h1 : history) :
  collect_loop w eoa_addresses pre [] h0 = (Ok results1, h1) ->
  (get_peer_info w node_id h1).1 = Ok None ->
  let h2 := h1 ++ [EvGet GENSYN_PEER_API_URL (peer_params node_id)] in
  let record :=
    default_record node_id (addresses_get eoa_addresses node_id)
      (datetime_now_isoformat w h2) in
  loop_body w eoa_addresses node_id results1 h1 = (Ok (results1 ++ [record]), h2) /\
  collect_loop w eoa_addresses (pre ++ node_id :: post) [] h0 =
    collect_loop w eoa_addresses post (results1 ++ [record]) h2 /\
  (forall results h',
     collect_loop w eoa_addresses (pre ++ node_id :: post) [] h0 = (Ok results, h') ->
     results !! length pre = Some record) /\
  rec_name record = JStr "UNKNOWN" /\
  rec_reward record = JInt 0 /\
  rec_score record = JInt 0 /\
  rec_online record = JBool false /\
  rec_last_tx_minutes_ago record = None.
Proof.
  intros Hpre Hpeer h2 record.
  assert (Hbody : loop_body w eoa_addresses node_id results1 h1 =
                    (Ok (results1 ++ [record]), h2)).
  { unfold loop_body. pose proof (get_peer_info_history w node_id h1) as Hh.
    destruct (get_peer_info w node_id h1) as [o h']. simpl in Hpeer, Hh.
    subst o h'. reflexivity. }
  assert (Hloop : collect_loop w eoa_addresses (pre ++ node_id :: post) [] h0 =
                    collect_loop w eoa_addresses post (results1 ++ [record]) h2).
  { rewrite (collect_loop_app w eoa_addresses pre (node_id :: post) _ _ _ _ Hpre).
    cbn [collect_loop]. rewrite Hbody. reflexivity. }
  split; [exact Hbody |]. split; [exact Hloop |].
  split; [| repeat split].
  intros results h' Hrun. rewrite Hloop in Hrun.
  apply collect_loop_records in Hrun as (new & -> & _ & _).
  apply collect_loop_records in Hpre as (new1 & -> & Hids & _).
  simpl. rewrite <- Hids, length_map.
  rewrite <- app_assoc. rewrite lookup_app_r by lia.
  rewrite Nat.sub_diag. reflexivity.
Qed.

Lemma unavailable_status_gives_default_record_witness :
  exists results1 h1,
    collect_loop world_a_unavailable {["node-a" := Some address_a]} ["node-b"] [] [] =
      (Ok results1, h1) /\
    loop_body world_a_unavailable {["node-a" := Some address_a]} "node-a" results1 h1 =
      (Ok (results1 ++ [default_record "node-a" (Some address_a) "2025-06-01T12:00:00"]),
       h1 ++ [EvGet GENSYN_PEER_API_URL (peer_params "node-a")]).
Proof.
  eexists _, _. split; [vm_compute; reflexivity |].
  refine (proj1 (unavailable_status_gives_default_record world_a_unavailable
                   {["node-a" := Some address_a]} ["node-b"] "node-a" ["node-b"]
                   _ [] _ _ _)).
  - vm_compute. reflexivity.
  - vm_compute. reflexivity.
Defined.

(** ** Pacing *)

(** C4: the code at the failing input.  The status of the first of two
    roster entries is unavailable: the loop goes from the first status
    request straight to the second, and the only delay of the run comes
    after the second entry. *)
Lemma no_delay_after_unavailable_status :
  (collect_node_data world_a_unavailable uninitialised ["node-a"; "node-b"] []).2 =
    [EvGet GENSYN_PEER_API_URL (peer_params "node-a");
     EvGet GENSYN_PEER_API_URL (peer_params "node-b");
     EvSleep 1].
Proof. vm_compute. reflexivity. Qed.

(** * Further properties *)

(** ** The address dict, continued *)

Lemma address_at_some (eoa_addresses : list string) (i : nat) (a : string) :
  address_at eoa_addresses i = Some a <->
  eoa_addresses !! i = Some a /\ a <> zero_address.
Proof.
  unfold address_at. destruct (eoa_addresses !! i) as [x |].
  - destruct (String.eqb_spec x zero_address) as [-> | Hne].
    + split; [discriminate | intros [[= <-] Hne]; congruence].
    + split; [intros [= <-]; auto | intros [[= <-] _]; reflexivity].
  - split; [discriminate | intros [[=] _]].
Qed.

Lemma fill_result_lookup (eoa_addresses : list string) (node_ids : list string)
    (node_id : string) :
  ((node_id ∉ node_ids) /\ fill_result node_ids 0 eoa_addresses ∅ !! node_id = None) \/
  (exists j, node_ids !! j = Some node_id /\
     (forall j', (j < j')%nat -> node_ids !! j' <> Some node_id) /\
     fill_result node_ids 0 eoa_addresses ∅ !! node_id =
       Some (address_at eoa_addresses j)).
Proof.
  destruct (decide (node_id ∈ node_ids)) as [Hin | Hnotin].
  - right. apply list_elem_of_lookup in Hin as [i Hi].
    destruct (last_occurrence node_ids i node_id Hi) as (j & _ & Hj & Hlast).
    exists j. split; [exact Hj |]. split; [exact Hlast |].
    apply (fill_result_last eoa_addresses node_ids 0 ∅ j node_id Hj Hlast).
  - left. split; [exact Hnotin |].
    rewrite fill_result_notin by exact Hnotin. apply lookup_empty.
Qed.

(** X1. Whatever the chain call does, an address bound in the result is never
    the zero address, and it is an address the contract returned at a
    position where the identity stands in the roster. *)
Theorem bound_address_comes_from_contract (w : world) (self : collector)
    (node_ids : list string) (h : history) (node_id a : string) :
  (get_eoa_addresses_batch w self node_ids h).1 !! node_id = Some (Some a) ->
  a <> zero_address /\
  exists eoa_addresses i,
    getEoa_call w h node_ids = CallReturns eoa_addresses /\
    node_ids !! i = Some node_id /\
    eoa_addresses !! i = Some a.
Proof.
  unfold get_eoa_addresses_batch.
  destruct (contract self); simpl; [| rewrite lookup_empty; discriminate].
  destruct (getEoa_call w h node_ids) as [| eoa_addresses]; simpl.
  - unfold all_none. rewrite fold_none_lookup.
    destruct (decide (node_id ∈ node_ids)); [discriminate |].
    rewrite lookup_empty. discriminate.
  - destruct (fill_result_lookup eoa_addresses node_ids node_id)
      as [[_ ->] | (j & Hj & _ & ->)]; [discriminate |].
    intros [= Hat]. apply address_at_some in Hat as [Hat Hnz].
    split; [exact Hnz |]. exists eoa_addresses, j. auto.
Qed.

Lemma bound_address_comes_from_contract_witness :
  address_b <> zero_address /\
  exists eoa_addresses i,
    getEoa_call world_two_addresses [] ["node-a"; "node-b"] = CallReturns eoa_addresses /\
    ["node-a"; "node-b"] !! i = Some "node-b" /\
    eoa_addresses !! i = Some address_b.
Proof.
  apply (bound_address_comes_from_contract world_two_addresses ready
           ["node-a"; "node-b"] [] "node-b" address_b).
  vm_compute. reflexivity.
Defined.

(** X2. On a roster without duplicates the result follows the positions: the
    identity at position [i] is bound to the address returned at [i], and to
    null when that address is the zero address or the array is too short. *)
Theorem distinct_roster_by_position (w : world) (self : collector)
    (node_ids : list string) (h : history) (eoa_addresses : list string) :
  contract self = true ->
  getEoa_call w h node_ids = CallReturns eoa_addresses ->
  NoDup node_ids ->
  forall i node_id,
    node_ids !! i = Some node_id ->
    let bound := (get_eoa_addresses_batch w self node_ids h).1 !! node_id in
    (forall a, eoa_addresses !! i = Some a -> a <> zero_address ->
       bound = Some (Some a)) /\
    (eoa_addresses !! i = Some zero_address -> bound = Some None) /\
    (eoa_addresses !! i = None -> bound = Some None).
Proof.
  intros Hready Hcall Hnodup i node_id Hi bound.
  assert (Hbound : bound = Some (address_at eoa_addresses i)).
  { unfold bound, get_eoa_addresses_batch. rewrite Hready, Hcall. simpl.
    apply (fill_result_last eoa_addresses node_ids 0 ∅ i node_id Hi).
    intros j' Hlt Hj'.
    pose proof (NoDup_lookup node_ids i j' node_id Hnodup Hi Hj'). lia. }
  rewrite Hbound. unfold address_at. repeat split.
  - intros a -> Hnz. apply String.eqb_neq in Hnz. rewrite Hnz. reflexivity.
  - intros ->. rewrite String.eqb_refl. reflexivity.
  - intros ->. reflexivity.
Qed.

Lemma distinct_roster_by_position_witness :
  (get_eoa_addresses_batch world_two_addresses ready ["node-a"; "node-b"] []).1
    !! "node-a" = Some (Some address_a).
Proof.
  refine (proj1 (distinct_roster_by_position world_two_addresses ready
                   ["node-a"; "node-b"] [] [address_a; address_b]
                   eq_refl eq_refl _ 0%nat "node-a" eq_refl) address_a eq_refl _).
  - repeat constructor; rewrite ?elem_of_cons, ?elem_of_nil; intuition discriminate.
  - discriminate.
Defined.

(** X3. With the contract initialised, the keys of the result are exactly the
    identities of the roster, whether the call returns or raises. *)
Theorem result_keys_are_roster (w : world) (self : collector)
    (node_ids : list string) (h : history) (node_id : string) :
  contract self = true ->
  (is_Some ((get_eoa_addresses_batch w self node_ids h).1 !! node_id) <->
   node_id ∈ node_ids).
Proof.
  intros Hready. unfold get_eoa_addresses_batch. rewrite Hready. simpl.
  destruct (getEoa_call w h node_ids) as [| eoa_addresses]; simpl.
  - unfold all_none. rewrite fold_none_lookup.
    destruct (decide (node_id ∈ node_ids)) as [Hin | Hnotin].
    + split; eauto.
    + rewrite lookup_empty. split; [intros [x [=]] | contradiction].
  - destruct (fill_result_lookup eoa_addresses node_ids node_id)
      as [[Hnotin ->] | (j & Hj & _ & ->)].
    + split; [intros [x [=]] | contradiction].
    + split; [intros _; apply list_elem_of_lookup; eauto | eauto].
Qed.

Lemma result_keys_are_roster_witness :
  is_Some ((get_eoa_addresses_batch world_chain_down ready ["node-a"; "node-b"] []).1
             !! "node-b") <-> "node-b" ∈ ["node-a"; "node-b"].
Proof.
  apply (result_keys_are_roster world_chain_down ready ["node-a"; "node-b"] [] "node-b").
  reflexivity.
Defined.

(** X4. Addresses returned beyond the length of the roster are ignored: two
    answers that agree on the first [len(node_ids)] positions give the same
    result. *)
Theorem surplus_addresses_ignored (w w' : world) (self : collector)
    (node_ids : list string) (h h' : history) (eoa_addresses eoa_addresses' : list string) :
  getEoa_call w h node_ids = CallReturns eoa_addresses ->
  getEoa_call w' h' node_ids = CallReturns eoa_addresses' ->
  take (length node_ids) eoa_addresses = take (length node_ids) eoa_addresses' ->
  (get_eoa_addresses_batch w self node_ids h).1 =
  (get_eoa_addresses_batch w' self node_ids h').1.
Proof.
  intros Hcall Hcall' Hsame. unfold get_eoa_addresses_batch.
  destruct (contract self); simpl; [| reflexivity].
  rewrite Hcall, Hcall'. simpl. apply map_eq. intros node_id.
  destruct (fill_result_lookup eoa_addresses node_ids node_id)
    as [[Hnotin ->] | (j & Hj & Hlast & ->)].
  - rewrite fill_result_notin by exact Hnotin. rewrite lookup_empty. reflexivity.
  - rewrite (fill_result_last eoa_addresses' node_ids 0 ∅ j node_id Hj Hlast).
    simpl. f_equal. unfold address_at.
    apply lookup_lt_Some in Hj.
    rewrite <- (lookup_take_lt eoa_addresses (length node_ids) j) by exact Hj.
    rewrite <- (lookup_take_lt eoa_addresses' (length node_ids) j) by exact Hj.
    rewrite Hsame. reflexivity.
Qed.

Lemma surplus_addresses_ignored_witness :
  (get_eoa_addresses_batch world_two_addresses ready ["node-a"] []).1 =
  (get_eoa_addresses_batch world_one_address ready ["node-a"] []).1.
Proof.
  apply (surplus_addresses_ignored world_two_addresses world_one_address ready
           ["node-a"] [] [] [address_a; address_b] [address_a]);
    reflexivity.
Defined.

(** ** The probe, continued *)

Lemma probe_endpoints_prefix (w : world) (endpoints : list string) :
  forall h, exists k,
    (k <= length endpoints)%nat /\
    (probe_endpoints w endpoints h).2 = h ++ requests (take k endpoints).
Proof.
  induction endpoints as [| e rest IH]; intros h; simpl.
  - exists 0%nat. split; [lia |]. rewrite app_nil_r. reflexivity.
  - destruct (endpoint_body w (h ++ [EvGet e []]) (session_get w h e []))
      as [[minutes |] |].
    + exists 1%nat. split; [lia |]. reflexivity.
    + destruct (IH (h ++ [EvGet e []])) as (k & Hk & ->).
      exists (S k). split; [lia |]. rewrite <- app_assoc. reflexivity.
    + exists 1%nat. split; [lia |]. reflexivity.
Qed.

Lemma probe_history_prefix (w : world) (eoa_address : string) (h : history) :
  exists k, (k <= 6)%nat /\
    (get_last_internal_tx_time w eoa_address h).2 =
      h ++ requests (take k (api_endpoints eoa_address)).
Proof.
  unfold get_last_internal_tx_time.
  destruct (String.eqb eoa_address "" || String.eqb eoa_address zero_address).
  - exists 0%nat. split; [lia |]. simpl. rewrite app_nil_r. reflexivity.
  - destruct (probe_endpoints_prefix w (api_endpoints eoa_address) h)
      as (k & Hk & Hh).
    exists k. split; [exact Hk |].
    destruct (probe_endpoints w (api_endpoints eoa_address) h) as [[minutes |] h'];
      exact Hh.
Qed.

(** X5. Whatever the explorer answers, the probe issues nothing but requests
    to the endpoints of [api_endpoints], each at most once and in that
    order: its requests are the first [k] of the six, for some [k].  On
    an empty address or the zero address it issues none and returns
    null. *)
Theorem probe_requests_are_endpoint_prefix (w : world) (eoa_address : string)
    (h : history) :
  (exists k, (k <= 6)%nat /\
     (get_last_internal_tx_time w eoa_address h).2 =
       h ++ requests (take k (api_endpoints eoa_address))) /\
  (eoa_address = "" \/ eoa_address = zero_address ->
   get_last_internal_tx_time w eoa_address h = (None, h)).
Proof.
  split; [apply probe_history_prefix |].
  unfold get_last_internal_tx_time.
  intros [-> | ->]; [reflexivity |].
  rewrite String.eqb_refl, orb_true_r. reflexivity.
Qed.

Lemma probe_requests_are_endpoint_prefix_witness :
  get_last_internal_tx_time world_empty_then_data zero_address [] = (None, []).
Proof.
  apply (proj2 (probe_requests_are_endpoint_prefix world_empty_then_data
                  zero_address [])).
  right. reflexivity.
Defined.

Lemma scan_raises (w : world) (transactions : list json) :
  Exists (fun tx => tx_timestamp w tx timestamp_fields = Raised) transactions ->
  forall acc, scan_transactions w transactions acc = Raised.
Proof.
  induction 1 as [tx txs Htx | tx txs _ IH]; intros acc; cbn [scan_transactions].
  - rewrite Htx. reflexivity.
  - destruct (tx_timestamp w tx timestamp_fields) as [[t |] |];
      [apply IH | apply IH | reflexivity].
Qed.

(** X6. A transaction list that holds a null, a boolean or a number ends the
    probe: reading the item raises, the outer handler returns null, and the
    endpoints after it are not requested, whatever the other items and the
    later endpoints hold. *)
Theorem scalar_item_ends_probe (w : world) (eoa_address : string) (h : history)
    (pre : list string) (e : string) (post : list string) (data : json) :
  resolved eoa_address ->
  api_endpoints eoa_address = pre ++ e :: post ->
  (forall i e', pre !! i = Some e' ->
     yields_nothing w (session_get w (h ++ requests (take i pre)) e' [])) ->
  session_get w (h ++ requests pre) e [] = Reply 200 (Some data) ->
  Exists scalar_item (extract_transactions data) ->
  get_last_internal_tx_time w eoa_address h = (None, h ++ requests (pre ++ [e])).
Proof.
  intros Hres Hsplit Hpre Hanswer Hscalar.
  unfold get_last_internal_tx_time. rewrite (resolved_guard _ Hres), Hsplit.
  rewrite (probe_endpoints_skip w pre (e :: post) h Hpre).
  assert (Hh : h ++ requests (pre ++ [e]) = (h ++ requests pre) ++ [EvGet e []]).
  { unfold requests. rewrite map_app, app_assoc. reflexivity. }
  rewrite Hh. cbn [probe_endpoints]. rewrite Hanswer. unfold endpoint_body.
  change (200 =? 200) with true. cbv iota.
  assert (Hraise : scan_transactions w (extract_transactions data) None = Raised).
  { apply scan_raises. eapply Exists_impl; [exact Hscalar |].
    intros [] Hs; try contradiction; reflexivity. }
  destruct (extract_transactions data) as [| tx txs].
  - inversion Hscalar.
  - rewrite Hraise. reflexivity.
Qed.

(** X7. A transaction list whose latest timestamp is zero gives nothing: the
    endpoint is passed over like a failed one. *)
Theorem zero_timestamp_passed_over (w : world) (e : string) (rest : list string)
    (h : history) (data : json) (latest : Q) :
  session_get w h e [] = Reply 200 (Some data) ->
  latest_of w (extract_transactions data) latest ->
  (latest == 0)%Q ->
  probe_endpoints w (e :: rest) h = probe_endpoints w rest (h ++ [EvGet e []]).
Proof.
  intros Hanswer Hlatest Hzero. cbn [probe_endpoints]. rewrite Hanswer.
  destruct (scan_latest w _ _ Hlatest) as (l & Hscan & Heq).
  unfold endpoint_body. change (200 =? 200) with true. cbv iota.
  destruct (extract_transactions data) as [| tx txs]; [reflexivity |].
  rewrite Hscan.
  assert (Hl : Qeq_bool l 0 = true) by (apply Qeq_bool_iff; rewrite Heq; exact Hzero).
  rewrite Hl. reflexivity.
Qed.

(** X8. For a latest timestamp in the future the minutes are rounded towards
    zero, not down: the result is [-floor((latest - now) / 60)], never
    positive, and 0 as long as the timestamp is less than a minute ahead. *)
Theorem future_timestamp_minutes (now latest : Q) :
  (now <= latest)%Q ->
  minutes_ago now latest = - Qfloor ((latest - now) / 60) /\
  minutes_ago now latest <= 0 /\
  ((latest - now < 60)%Q -> minutes_ago now latest = 0).
Proof.
  intros Hle.
  assert (Hopp : ((now - latest) / 60 == - ((latest - now) / 60))%Q) by field.
  assert (Heq : minutes_ago now latest = - minutes_ago latest now).
  { unfold minutes_ago. rewrite (py_int_comp _ _ Hopp). apply py_int_opp. }
  destruct (minutes_ago_past latest now Hle) as [Hfloor Hpos].
  rewrite Heq, Hfloor. split; [reflexivity |]. split; [lia |].
  intros Hlt.
  assert (H0 : (0 <= (latest - now) / 60)%Q).
  { apply Qle_shift_div_l; [reflexivity |].
    rewrite Qmult_0_l. unfold Qminus. rewrite <- Qle_minus_iff. exact Hle. }
  assert (H1 : ((latest - now) / 60 < 1)%Q).
  { apply Qlt_shift_div_r; [reflexivity |]. rewrite Qmult_1_l. exact Hlt. }
  assert (Qfloor ((latest - now) / 60) = 0); [| lia].
  pose proof (Qfloor_le ((latest - now) / 60)) as Hfl.
  pose proof (Qlt_floor ((latest - now) / 60)) as Hfu.
  assert (Hlow : 0 <= Qfloor ((latest - now) / 60)).
  { change 0 with (Qfloor 0). apply Qfloor_resp_le. exact H0. }
  assert (Hup : Qfloor ((latest - now) / 60) < 1).
  { rewrite Zlt_Qlt. eapply Qle_lt_trans; [exact Hfl | exact H1]. }
  lia.
Qed.

Lemma scalar_item_ends_probe_witness :
  get_last_internal_tx_time world_scalar_item address_a [] =
    (None, requests (take 1 (api_endpoints address_a))).
Proof.
  refine (scalar_item_ends_probe world_scalar_item address_a []
            [] (nth 0 (api_endpoints address_a) "") (drop 1 (api_endpoints address_a))
            (JList [tx_at "1700000000"; JInt 5])
            resolved_address_a eq_refl _ eq_refl _).
  - intros i e' He'. destruct i; discriminate He'.
  - apply Exists_cons_tl, Exists_cons_hd. exact I.
Defined.

Lemma zero_timestamp_passed_over_witness :
  probe_endpoints world_zero_timestamp (api_endpoints address_a) [] =
  probe_endpoints world_zero_timestamp (drop 1 (api_endpoints address_a))
    (requests (take 1 (api_endpoints address_a))).
Proof.
  refine (zero_timestamp_passed_over world_zero_timestamp
            (nth 0 (api_endpoints address_a) "") (drop 1 (api_endpoints address_a))
            [] (JList [tx_at "0"]) (inject_Z 0) eq_refl _ _).
  - split; [| split].
    + repeat constructor. discriminate.
    + apply Exists_cons_hd. reflexivity.
    + repeat constructor. intros t Ht. vm_compute in Ht.
      injection Ht as <-. discriminate.
  - reflexivity.
Defined.

Lemma future_timestamp_minutes_witness :
  minutes_ago 1700000000 1700000030 = 0 /\
  minutes_ago 1700000000 1700000200 = - Qfloor ((1700000200 - 1700000000) / 60).
Proof.
  split.
  - apply (future_timestamp_minutes 1700000000 1700000030);
      [discriminate | reflexivity].
  - apply (future_timestamp_minutes 1700000000 1700000200). discriminate.
Defined.

(** ** Shapes of the explorer's answers *)

Lemma first_list_under_app (d : list (string * json)) (before rest : list string) :
  (forall k, k ∈ before -> forall l, dict_lookup k d <> Some (JList l)) ->
  first_list_under (before ++ rest) d = first_list_under rest d.
Proof.
  induction before as [| k before IH]; intros Hnone; simpl.
  - reflexivity.
  - pose proof (Hnone k (list_elem_of_here _ _)) as Hk.
    rewrite IH by (intros k' Hin; apply Hnone; right; exact Hin).
    destruct (dict_lookup k d) as [[] |]; try reflexivity.
    exfalso. eapply Hk. reflexivity.
Qed.

(** X9. In an object the transaction list is the one under the first of the
    keys items, transactions, data, result, internal_transactions that is
    bound to a list: a key bound to anything else is passed over, and the
    keys after the winner are not looked at. *)
Theorem first_list_key_wins (d : list (string * json)) (before : list string)
    (key : string) (after : list string) (l : list json) :
  possible_keys = before ++ key :: after ->
  dict_lookup key d = Some (JList l) ->
  (forall k, k ∈ before -> forall l', dict_lookup k d <> Some (JList l')) ->
  extract_transactions (JDict d) = l.
Proof.
  intros Hsplit Hkey Hbefore. unfold extract_transactions.
  rewrite Hsplit, (first_list_under_app d before (key :: after) Hbefore).
  simpl. rewrite Hkey. reflexivity.
Qed.

Lemma first_list_key_wins_witness :
  extract_transactions
    (JDict [("result", JList [JInt 1]); ("items", JStr "none");
            ("data", JList [JInt 2]); ("transactions", JNull)]) = [JInt 2].
Proof.
  refine (first_list_key_wins
            [("result", JList [JInt 1]); ("items", JStr "none");
             ("data", JList [JInt 2]); ("transactions", JNull)]
            ["items"; "transactions"] "data"
            ["result"; "internal_transactions"] [JInt 2] eq_refl eq_refl _).
  intros k Hk l' Hl.
  rewrite !elem_of_cons, elem_of_nil in Hk.
  destruct Hk as [-> | [-> | []]]; discriminate Hl.
Defined.

Lemma tx_timestamp_app (w : world) (d : list (string * json))
    (before rest : list string) :
  (forall f, f ∈ before ->
     match dict_lookup f d with
     | None => True
     | Some v => truthy v = false \/ parse_timestamp w v = None
     end) ->
  tx_timestamp w (JDict d) (before ++ rest) = tx_timestamp w (JDict d) rest.
Proof.
  induction before as [| f before IH]; intros Hskip; simpl.
  - reflexivity.
  - pose proof (Hskip f (list_elem_of_here _ _)) as Hf.
    rewrite IH by (intros f' Hin; apply Hskip; right; exact Hin).
    destruct (dict_lookup f d) as [v |]; [| reflexivity].
    destruct (truthy v); [| reflexivity].
    destruct Hf as [Hf | Hf]; [discriminate | rewrite Hf; reflexivity].
Qed.

(** X10. The instant of a transaction is read from the first of the fields
    timestamp, block_timestamp, created_at, time, block_time that is
    present, truthy and parses: a field that is absent, falsy or fails to
    parse is passed over, and the fields after the winner are not looked
    at. *)
Theorem first_parsing_field_wins (w : world) (d : list (string * json))
    (before : list string) (field : string) (after : list string) (v : json) (t : Q) :
  timestamp_fields = before ++ field :: after ->
  dict_lookup field d = Some v ->
  truthy v = true ->
  parse_timestamp w v = Some t ->
  (forall f, f ∈ before ->
     match dict_lookup f d with
     | None => True
     | Some v' => truthy v' = false \/ parse_timestamp w v' = None
     end) ->
  tx_timestamp w (JDict d) timestamp_fields = Ok (Some t).
Proof.
  intros Hsplit Hfield Htruthy Hparse Hbefore.
  rewrite Hsplit, (tx_timestamp_app w d before (field :: after) Hbefore).
  simpl. rewrite Hfield, Htruthy, Hparse. reflexivity.
Qed.

Lemma first_parsing_field_wins_witness :
  tx_timestamp world_chain_down
    (JDict [("time", JStr "1700000300"); ("timestamp", JStr "yesterday");
            ("block_timestamp", JInt 0); ("created_at", JStr "1700000000")])
    timestamp_fields = Ok (Some (inject_Z 1700000000)).
Proof.
  refine (first_parsing_field_wins world_chain_down
            [("time", JStr "1700000300"); ("timestamp", JStr "yesterday");
             ("block_timestamp", JInt 0); ("created_at", JStr "1700000000")]
            ["timestamp"; "block_timestamp"] "created_at" ["time"; "block_time"]
            (JStr "1700000000") (inject_Z 1700000000)
            eq_refl eq_refl eq_refl eq_refl _).
  intros f Hf. rewrite !elem_of_cons, elem_of_nil in Hf.
  destruct Hf as [-> | [-> | []]]; vm_compute; auto.
Defined.

(** ** Numbers as timestamps *)







(** ** Order of the transactions *)

Lemma readable_or_raises (w : world) (transactions : list json) :
  Forall (fun tx => tx_timestamp w tx timestamp_fields <> Raised) transactions \/
  Exists (fun tx => tx_timestamp w tx timestamp_fields = Raised) transactions.
Proof.
  induction transactions as [| tx txs [IH | IH]].
  - left. constructor.
  - destruct (tx_timestamp w tx timestamp_fields) as [o |] eqn:Htx.
    + left. constructor; [rewrite Htx; discriminate | exact IH].
    + right. apply Exists_cons_hd. exact Htx.
  - right. apply Exists_cons_tl. exact IH.
Qed.

(** Two lists with the same transactions give the same scan: both raise,
    both find nothing, or both find equal instants. *)
Lemma scan_permutation (w : world) (txs txs' : list json) :
  txs ≡ₚ txs' ->
  match scan_transactions w txs None, scan_transactions w txs' None with
  | Raised, Raised => True
  | Ok None, Ok None => True
  | Ok (Some l), Ok (Some l') => (l == l')%Q
  | _, _ => False
  end.
Proof.
  intros Hperm.
  destruct (readable_or_raises w txs) as [Hread | Hraise].
  - assert (Hread' : Forall (fun tx => tx_timestamp w tx timestamp_fields <> Raised) txs')
      by (rewrite <- Hperm; exact Hread).
    destruct (scan_bounds w txs Hread None) as (r & -> & Hfrom & Hall & _).
    destruct (scan_bounds w txs' Hread' None) as (r' & -> & Hfrom' & Hall' & _).
    rewrite Forall_forall in Hall, Hall'.
    assert (Hup : forall r r' : option Q, forall txs txs' : list json,
               txs ≡ₚ txs' ->
               (r = None \/ exists t, r = Some t /\
                  Exists (fun tx => tx_timestamp w tx timestamp_fields = Ok (Some t)) txs) ->
               (forall tx, tx ∈ txs' -> forall t,
                  tx_timestamp w tx timestamp_fields = Ok (Some t) ->
                  exists l, r' = Some l /\ (t <= l)%Q) ->
               forall l, r = Some l -> exists l', r' = Some l' /\ (l <= l')%Q).
    { intros q q' l1 l2 Hp Hq Hb l ->.
      destruct Hq as [[=] | (t & [= <-] & Hex)].
      apply Exists_exists in Hex as (tx & Hin & Htx).
      rewrite Hp in Hin. apply (Hb tx Hin l Htx). }
    pose proof (Hup r r' txs txs' Hperm Hfrom Hall') as H1.
    pose proof (Hup r' r txs' txs (symmetry Hperm) Hfrom' Hall) as H2.
    destruct r as [l |], r' as [l' |].
    + destruct (H1 l eq_refl) as (x & [= <-] & Hle).
      destruct (H2 l' eq_refl) as (y & [= <-] & Hle').
      apply Qle_antisym; assumption.
    + destruct (H1 l eq_refl) as (x & [=] & _).
    + destruct (H2 l' eq_refl) as (x & [=] & _).
    + exact I.
  - assert (Hraise' : Exists (fun tx => tx_timestamp w tx timestamp_fields = Raised) txs')
      by (rewrite <- Hperm; exact Hraise).
    rewrite (scan_raises w txs Hraise None), (scan_raises w txs' Hraise' None).
    exact I.
Qed.

(** X12. What an endpoint gives does not depend on the order in which its
    answer lists the transactions. *)
Theorem endpoint_result_ignores_order (w : world) (h : history) (data data' : json) :
  extract_transactions data ≡ₚ extract_transactions data' ->
  endpoint_body w h (Reply 200 (Some data)) =
  endpoint_body w h (Reply 200 (Some data')).
Proof.
  intros Hperm. pose proof (scan_permutation w _ _ Hperm) as Hscan.
  unfold endpoint_body. change (200 =? 200) with true. cbv iota.
  destruct (extract_transactions data) as [| tx txs],
           (extract_transactions data') as [| tx' txs'].
  - reflexivity.
  - apply Permutation_nil_cons in Hperm. contradiction.
  - symmetry in Hperm. apply Permutation_nil_cons in Hperm. contradiction.
  - destruct (scan_transactions w (tx :: txs) None) as [[l |] |],
             (scan_transactions w (tx' :: txs') None) as [[l' |] |];
      try contradiction; try reflexivity.
    assert (Hz : Qeq_bool l 0 = Qeq_bool l' 0).
    { destruct (Qeq_bool l 0) eqn:H1, (Qeq_bool l' 0) eqn:H2; try reflexivity.
      - apply Qeq_bool_iff in H1. rewrite Hscan in H1.
        apply Qeq_bool_iff in H1. congruence.
      - apply Qeq_bool_iff in H2. rewrite <- Hscan in H2.
        apply Qeq_bool_iff in H2. congruence. }
    rewrite Hz, (minutes_ago_comp _ l l' Hscan). reflexivity.
Qed.

Lemma endpoint_result_ignores_order_witness :
  endpoint_body world_chain_down []
    (Reply 200 (Some (JList [tx_at "1699999000"; tx_at "1700000000"]))) =
  endpoint_body world_chain_down []
    (Reply 200 (Some (JDict [("items", JList [tx_at "1700000000"; tx_at "1699999000"])]))).
Proof.
  apply (endpoint_result_ignores_order world_chain_down []).
  apply perm_swap.
Defined.

(** ** The I/O of a cycle *)

Lemma filter_requests (f : event -> bool) (endpoints : list string) :
  (forall url, f (EvGet url []) = false) ->
  List.filter f (requests endpoints) = [].
Proof.
  intros Hf. induction endpoints as [| e rest IH]; simpl; [reflexivity |].
  rewrite Hf. exact IH.
Qed.

Lemma probe_address_events (w : world) (eoa_address : option string) (h : history) :
  exists endpoints,
    (probe_address w eoa_address h).2 = h ++ requests endpoints /\
    (eoa_address = None -> endpoints = [] /\ (probe_address w eoa_address h).1 = None).
Proof.
  unfold probe_address. destruct eoa_address as [a |].
  - destruct (String.eqb a "").
    + exists []. simpl. rewrite app_nil_r. split; [reflexivity | discriminate].
    + destruct (probe_history_prefix w a h) as (k & _ & Hh).
      eexists. split; [exact Hh | discriminate].
  - exists []. simpl. rewrite app_nil_r. auto.
Qed.

(** The events of one turn of the loop: the status request, then the
    explorer requests of the probe, then the delay. *)
Lemma loop_body_events (w : world) (eoa_addresses : gmap string (option string))
    (node_id : string) (results : list node_record) (h : history) :
  exists endpoints tail,
    (loop_body w eoa_addresses node_id results h).2 =
      h ++ status_request node_id :: requests endpoints ++ tail /\
    (tail = [] \/ tail = [EvSleep 1]) /\
    (addresses_get eoa_addresses node_id = None -> endpoints = []).
Proof.
  unfold loop_body. pose proof (get_peer_info_history w node_id h) as Hh.
  destruct (get_peer_info w node_id h) as [[peer_info |] h1]; simpl in Hh; subst h1.
  - destruct (no_peer_info peer_info).
    + exists [], []. simpl. auto.
    + destruct (probe_address_events w (addresses_get eoa_addresses node_id)
                  (h ++ [EvGet GENSYN_PEER_API_URL (peer_params node_id)]))
        as (endpoints & Hp & Hnone).
      destruct (probe_address w (addresses_get eoa_addresses node_id)
                  (h ++ [EvGet GENSYN_PEER_API_URL (peer_params node_id)]))
        as [last_tx_minutes h2].
      simpl in Hp. subst h2. exists endpoints, [EvSleep 1]. simpl.
      split; [rewrite <- !app_assoc; reflexivity |].
      split; [auto | intros Ha; apply (Hnone Ha)].
  - exists [], []. simpl. auto.
Qed.

(** The events of the loop when it runs to its end: one status request per
    entry in roster order, no chain call, delays of 1 only and at most one
    per entry, and no explorer request when no address is bound. *)
Lemma collect_loop_events (w : world) (eoa_addresses : gmap string (option string))
    (node_ids : list string) :
  forall (results results' : list node_record) (h h' : history),
    collect_loop w eoa_addresses node_ids results h = (Ok results', h') ->
    exists new,
      h' = h ++ new /\
      List.filter is_status_request new = map status_request node_ids /\
      List.filter is_chain_call new = [] /\
      Forall (fun e => is_sleep e = true -> e = EvSleep 1) new /\
      (length (List.filter is_sleep new) <= length node_ids)%nat /\
      ((forall node_id, addresses_get eoa_addresses node_id = None) ->
       List.filter is_explorer_request new = []).
Proof.
  induction node_ids as [| node_id rest IH]; intros results results' h h'; simpl.
  - intros [= <- <-]. exists []. rewrite app_nil_r.
    repeat split; auto.
  - destruct (loop_body_events w eoa_addresses node_id results h)
      as (endpoints & tail & Hh & Htail & Hnone).
    destruct (loop_body w eoa_addresses node_id results h) as [[results1 |] h1];
      [| discriminate].
    simpl in Hh. subst h1. intros Hrest.
    apply IH in Hrest as (new & -> & Hstatus & Hchain & Hsleeps & Hcount & Hexp).
    exists ((status_request node_id :: requests endpoints ++ tail) ++ new).
    split; [rewrite <- app_assoc; reflexivity |].
    assert (Htail' : tail = [] \/ tail = [EvSleep 1]) by exact Htail.
    rewrite !List.filter_app. simpl.
    rewrite !List.filter_app, !filter_requests by reflexivity.
    split; [| split; [| split; [| split]]].
    + rewrite Hstatus. destruct Htail as [-> | ->]; reflexivity.
    + rewrite Hchain. destruct Htail as [-> | ->]; reflexivity.
    + constructor; [discriminate |].
      apply Forall_app. split; [| exact Hsleeps]. apply Forall_app. split.
      * unfold requests. apply Forall_fmap, Forall_forall. intros; discriminate.
      * destruct Htail as [-> | ->]; repeat constructor.
    + rewrite !length_app. destruct Htail as [-> | ->]; simpl; lia.
    + intros Hall. rewrite (Hexp Hall), (Hnone (Hall node_id)).
      destruct Htail as [-> | ->]; reflexivity.
Qed.

Lemma batch_history (w : world) (self : collector) (node_ids : list string)
    (h : history) :
  (get_eoa_addresses_batch w self node_ids h).2 =
    h ++ (if contract self then [EvGetEoa node_ids] else []).
Proof.
  unfold get_eoa_addresses_batch. destruct (contract self); simpl.
  - destruct (getEoa_call w h node_ids); reflexivity.
  - rewrite app_nil_r. reflexivity.
Qed.

(** X13. A cycle that runs to its end makes its one chain call first, with the
    whole roster (none when the contract was never initialised), and then
    exactly one status request per roster entry, in roster order. *)
Theorem cycle_calls_chain_once_and_status_per_entry (w : world) (self : collector)
    (node_ids : list string) (h : history) (results : list node_record) (h' : history) :
  collect_node_data w self node_ids h = (Ok results, h') ->
  exists new,
    h' = h ++ (if contract self then [EvGetEoa node_ids] else []) ++ new /\
    List.filter is_chain_call new = [] /\
    List.filter is_status_request new = map status_request node_ids.
Proof.
  unfold collect_node_data. pose proof (batch_history w self node_ids h) as Hb.
  destruct (get_eoa_addresses_batch w self node_ids h) as [eoa_addresses h0].
  simpl in Hb. subst h0. intros Hloop.
  apply collect_loop_events in Hloop as (new & -> & Hstatus & Hchain & _).
  exists new. rewrite <- app_assoc. auto.
Qed.

Lemma cycle_calls_chain_once_and_status_per_entry_witness :
  exists new,
    (collect_node_data world_a_unavailable ready ["node-b"; "node-a"] []).2 =
      [] ++ [EvGetEoa ["node-b"; "node-a"]] ++ new /\
    List.filter is_chain_call new = [] /\
    List.filter is_status_request new = map status_request ["node-b"; "node-a"].
Proof.
  refine (cycle_calls_chain_once_and_status_per_entry world_a_unavailable ready
            ["node-b"; "node-a"] [] _ _ _).
  vm_compute. reflexivity.
Defined.

Lemma loop_body_available (w : world) (eoa_addresses : gmap string (option string))
    (node_id : string) (results : list node_record) (h : history)
    (status_code : Z) (data : list (string * json)) :
  session_get w h GENSYN_PEER_API_URL (peer_params node_id) =
    Reply status_code (Some (JDict data)) ->
  ~ (400 <= status_code < 600) ->
  data <> [] ->
  let h1 := h ++ [status_request node_id] in
  let eoa_address := addresses_get eoa_addresses node_id in
  let probe := probe_address w eoa_address h1 in
  loop_body w eoa_addresses node_id results h =
    (Ok (results ++ [status_record node_id data eoa_address probe.1
                       (datetime_now_isoformat w probe.2)]),
     probe.2 ++ [EvSleep 1]).
Proof.
  intros Hanswer Hstatus Hdata h1 eoa_address probe.
  unfold loop_body, get_peer_info. rewrite Hanswer.
  replace ((400 <=? status_code) && (status_code <? 600)) with false
    by (symmetry; apply andb_false_iff; lia).
  destruct data as [| entry data]; [contradiction |].
  cbn [no_peer_info default].
  fold (status_request node_id). fold h1. fold eoa_address. fold probe.
  destruct probe as [last_tx_minutes h2]. reflexivity.
Qed.

(** X14. Every delay of a cycle lasts 1, and a cycle that runs to its end makes
    at most one delay per roster entry. *)
Theorem cycle_delays_bounded (w : world) (self : collector)
    (node_ids : list string) (h : history) (results : list node_record) (h' : history) :
  collect_node_data w self node_ids h = (Ok results, h') ->
  exists new,
    h' = h ++ new /\
    Forall (fun e => is_sleep e = true -> e = EvSleep 1) new /\
    (length (List.filter is_sleep new) <= length node_ids)%nat.
Proof.
  unfold collect_node_data. pose proof (batch_history w self node_ids h) as Hb.
  destruct (get_eoa_addresses_batch w self node_ids h) as [eoa_addresses h0].
  simpl in Hb. subst h0. intros Hloop.
  apply collect_loop_events in Hloop as (new & -> & _ & _ & Hsleeps & Hcount & _).
  exists ((if contract self then [EvGetEoa node_ids] else []) ++ new).
  split; [rewrite <- app_assoc; reflexivity |].
  destruct (contract self); simpl; [| auto].
  split; [constructor; [discriminate | exact Hsleeps] | exact Hcount].
Qed.

Lemma cycle_delays_bounded_witness :
  exists new,
    (collect_node_data world_a_unavailable ready ["node-b"; "node-a"] []).2 = [] ++ new /\
    Forall (fun e => is_sleep e = true -> e = EvSleep 1) new /\
    (length (List.filter is_sleep new) <= length ["node-b"; "node-a"])%nat.
Proof.
  refine (cycle_delays_bounded world_a_unavailable ready
            ["node-b"; "node-a"] [] _ _ _).
  vm_compute. reflexivity.
Defined.

Lemma collect_loop_available (w : world) (eoa_addresses : gmap string (option string))
    (node_ids : list string) :
  status_always_available w ->
  forall (results : list node_record) (h : history),
    exists results' new,
      collect_loop w eoa_addresses node_ids results h = (Ok results', h ++ new) /\
      length (List.filter is_sleep new) = length node_ids /\
      (node_ids <> [] -> last new = Some (EvSleep 1)).
Proof.
  intros Havail.
  induction node_ids as [| node_id rest IH]; intros results h; cbn [collect_loop].
  - exists results, []. rewrite app_nil_r. repeat split. congruence.
  - destruct (Havail h node_id) as (status_code & k & v & d & Hanswer & Hstatus).
    rewrite (loop_body_available w eoa_addresses node_id results h status_code
               ((k, v) :: d) Hanswer Hstatus ltac:(discriminate)).
    destruct (probe_address_events w (addresses_get eoa_addresses node_id)
                (h ++ [status_request node_id])) as (endpoints & Hp & _).
    rewrite Hp.
    match goal with
    | |- context [collect_loop w eoa_addresses rest ?rs ?hs] =>
        destruct (IH rs hs) as (results' & new & Hrun & Hcount & Hlast)
    end.
    exists results', (status_request node_id :: requests endpoints ++ [EvSleep 1] ++ new).
    split; [| split].
    + rewrite Hrun. f_equal. rewrite <- !app_assoc. reflexivity.
    + simpl. rewrite List.filter_app, filter_requests by reflexivity.
      simpl. rewrite Hcount. reflexivity.
    + intros _. destruct rest as [| next rest'].
      * cbn [collect_loop] in Hrun. injection Hrun as _ Hh.
        assert (Hnew : new = []).
        { eapply app_inv_head. rewrite app_nil_r. symmetry. exact Hh. }
        subst new. rewrite app_nil_r.
        change (status_request node_id :: requests endpoints ++ [EvSleep 1])
          with ((status_request node_id :: requests endpoints) ++ [EvSleep 1]).
        apply last_snoc.
      * specialize (Hlast ltac:(discriminate)).
        replace (status_request node_id :: requests endpoints ++ [EvSleep 1] ++ new)
          with ((status_request node_id :: requests endpoints ++ [EvSleep 1]) ++ new)
          by (simpl; rewrite <- app_assoc; reflexivity).
        rewrite last_app, Hlast. reflexivity.
Qed.

(** X15. When every status fetch answers a non-empty object, the cycle runs to
    its end and makes exactly one delay per roster entry; the last event of
    a cycle over a non-empty roster is a delay, so the cycle also waits
    after its last entry. *)
Theorem available_cycle_delays_per_entry (w : world) (self : collector)
    (node_ids : list string) (h : history) :
  status_always_available w ->
  exists results new,
    collect_node_data w self node_ids h = (Ok results, h ++ new) /\
    length (List.filter is_sleep new) = length node_ids /\
    (node_ids <> [] -> last new = Some (EvSleep 1)).
Proof.
  intros Havail. unfold collect_node_data.
  pose proof (batch_history w self node_ids h) as Hb.
  destruct (get_eoa_addresses_batch w self node_ids h) as [eoa_addresses h0].
  simpl in Hb. subst h0.
  destruct (collect_loop_available w eoa_addresses node_ids Havail []
              (h ++ (if contract self then [EvGetEoa node_ids] else [])))
    as (results & new & Hrun & Hcount & Hlast).
  exists results, ((if contract self then [EvGetEoa node_ids] else []) ++ new).
  split; [rewrite Hrun, <- app_assoc; reflexivity |]. split.
  - rewrite List.filter_app, length_app, Hcount.
    destruct (contract self); reflexivity.
  - intros Hne. rewrite last_app, (Hlast Hne). reflexivity.
Qed.

Lemma world_two_addresses_available : status_always_available world_two_addresses.
Proof. intros h node_id. eexists _, _, _, _. split; [reflexivity | lia]. Defined.

Lemma available_cycle_delays_per_entry_witness :
  exists results new,
    collect_node_data world_two_addresses ready ["node-a"; "node-b"] [] =
      (Ok results, [] ++ new) /\
    length (List.filter is_sleep new) = 2%nat /\
    last new = Some (EvSleep 1).
Proof.
  destruct (available_cycle_delays_per_entry world_two_addresses ready
              ["node-a"; "node-b"] [] world_two_addresses_available)
    as (results & new & Hrun & Hcount & Hlast).
  exists results, new. split; [exact Hrun |]. split; [exact Hcount |].
  apply Hlast. discriminate.
Defined.

Lemma collect_loop_without_addresses (w : world)
    (eoa_addresses : gmap string (option string)) (node_ids : list string) :
  (forall node_id, addresses_get eoa_addresses node_id = None) ->
  forall (results results' : list node_record) (h h' : history),
    collect_loop w eoa_addresses node_ids results h = (Ok results', h') ->
    exists new, results' = results ++ new /\
      Forall (fun r => rec_last_tx_minutes_ago r = None) new.
Proof.
  intros Hnone.
  induction node_ids as [| node_id rest IH]; intros results results' h h'; simpl.
  - intros [= <- <-]. exists []. rewrite app_nil_r. split; [reflexivity | constructor].
  - unfold loop_body.
    destruct (get_peer_info w node_id h) as [[peer_info |] h1]; [| discriminate].
    rewrite (Hnone node_id). cbn [probe_address].
    destruct (no_peer_info peer_info); intros Hrest;
      apply IH in Hrest as (new & -> & Hall);
      eexists (_ :: new); rewrite <- app_assoc;
      (split; [reflexivity | constructor; [reflexivity | exact Hall]]).
Qed.

(** X16. When the chain call fails, a cycle that runs to its end issues no
    explorer request at all, and the activity of every record is null. *)
Theorem chain_failure_skips_every_probe (w : world) (self : collector)
    (node_ids : list string) (h : history) (results : list node_record) (h' : history) :
  chain_call_fails w self node_ids h ->
  collect_node_data w self node_ids h = (Ok results, h') ->
  (exists new, h' = h ++ new /\ List.filter is_explorer_request new = []) /\
  Forall (fun r => rec_last_tx_minutes_ago r = None) results.
Proof.
  intros Hfail. unfold collect_node_data.
  pose proof (fun node_id => failed_batch_get w self node_ids h node_id Hfail) as Hnone.
  pose proof (batch_history w self node_ids h) as Hb.
  destruct (get_eoa_addresses_batch w self node_ids h) as [eoa_addresses h0].
  simpl in Hb, Hnone. subst h0. intros Hloop. split.
  - apply collect_loop_events in Hloop as (new & -> & _ & _ & _ & _ & Hexp).
    exists ((if contract self then [EvGetEoa node_ids] else []) ++ new).
    split; [rewrite <- app_assoc; reflexivity |].
    rewrite List.filter_app, (Hexp Hnone). destruct (contract self); reflexivity.
  - apply (collect_loop_without_addresses w eoa_addresses node_ids Hnone) in Hloop
      as (new & -> & Hall).
    exact Hall.
Qed.

Lemma chain_failure_skips_every_probe_witness :
  (exists new,
     (collect_node_data world_chain_down ready ["node-a"; "node-b"] []).2 = [] ++ new /\
     List.filter is_explorer_request new = []) /\
  Forall (fun r => rec_last_tx_minutes_ago r = None)
    (match (collect_node_data world_chain_down ready ["node-a"; "node-b"] []).1 with
     | Ok results => results
     | Raised => []
     end).
Proof.
  refine (chain_failure_skips_every_probe world_chain_down ready
            ["node-a"; "node-b"] [] _ _ (or_intror eq_refl) _).
  vm_compute. reflexivity.
Defined.

(** X17. A status answer that decodes to the empty object is handled like an
    unavailable status: the turn appends the default record, runs no probe
    and makes no delay. *)
Theorem empty_status_object_is_unavailable (w : world)
    (eoa_addresses : gmap string (option string)) (node_id : string)
    (results : list node_record) (h : history) (status_code : Z) :
  session_get w h GENSYN_PEER_API_URL (peer_params node_id) =
    Reply status_code (Some (JDict [])) ->
  ~ (400 <= status_code < 600) ->
  let h1 := h ++ [status_request node_id] in
  loop_body w eoa_addresses node_id results h =
    (Ok (results ++ [default_record node_id (addresses_get eoa_addresses node_id)
                       (datetime_now_isoformat w h1)]), h1).
Proof.
  intros Hanswer Hstatus h1. unfold loop_body, get_peer_info. rewrite Hanswer.
  replace ((400 <=? status_code) && (status_code <? 600)) with false
    by (symmetry; apply andb_false_iff; lia).
  reflexivity.
Qed.

Lemma empty_status_object_is_unavailable_witness :
  loop_body world_empty_status {["node-a" := Some address_a]} "node-a" [] [] =
    (Ok [default_record "node-a" (Some address_a) "2025-06-01T12:00:00"],
     [status_request "node-a"]).
Proof.
  refine (empty_status_object_is_unavailable world_empty_status
            {["node-a" := Some address_a]} "node-a" [] [] 200 eq_refl _).
  lia.
Defined.

(** X18. For a status answer that decodes to a non-empty object the turn
    appends a record whose [reward] is the API's [score] and whose [score]
    is the API's [reward]; absent keys give the name ["Unknown"], 0, 0 and
    false.  The activity is what the probe returns for the bound address,
    the probe issues no request when no address is bound, and the turn ends
    with the delay. *)
Theorem available_status_record_fields (w : world)
    (eoa_addresses : gmap string (option string)) (node_id : string)
    (results : list node_record) (h : history)
    (status_code : Z) (data : list (string * json)) :
  session_get w h GENSYN_PEER_API_URL (peer_params node_id) =
    Reply status_code (Some (JDict data)) ->
  ~ (400 <= status_code < 600) ->
  data <> [] ->
  exists r h2,
    loop_body w eoa_addresses node_id results h = (Ok (results ++ [r]), h2 ++ [EvSleep 1]) /\
    probe_address w (addresses_get eoa_addresses node_id) (h ++ [status_request node_id]) =
      (rec_last_tx_minutes_ago r, h2) /\
    (addresses_get eoa_addresses node_id = None ->
       h2 = h ++ [status_request node_id] /\ rec_last_tx_minutes_ago r = None) /\
    rec_id r = node_id /\
    rec_address r = addresses_get eoa_addresses node_id /\
    rec_reward r = default (JInt 0) (dict_lookup "score" data) /\
    rec_score r = default (JInt 0) (dict_lookup "reward" data) /\
    rec_name r = default (JStr "Unknown") (dict_lookup "peerName" data) /\
    rec_online r = default (JBool false) (dict_lookup "online" data) /\
    rec_timestamp r = datetime_now_isoformat w h2.
Proof.
  intros Hanswer Hstatus Hdata.
  pose proof (loop_body_available w eoa_addresses node_id results h status_code data
                Hanswer Hstatus Hdata) as Hbody.
  cbv zeta in Hbody.
  destruct (probe_address w (addresses_get eoa_addresses node_id)
              (h ++ [status_request node_id])) as [last_tx_minutes h2] eqn:Hprobe.
  eexists _, h2. split; [exact Hbody |].
  split; [reflexivity |]. split.
  - intros Hnone. rewrite Hnone in Hprobe. simpl in Hprobe.
    injection Hprobe as <- <-. auto.
  - unfold status_record, dict_get_default. simpl.
    repeat split;
      match goal with
      | |- context [dict_lookup ?k data] => destruct (dict_lookup k data); reflexivity
      end.
Qed.

Lemma available_status_record_fields_witness :
  exists r h2,
    loop_body world_one_address ∅ "node-a" [] [] = (Ok ([] ++ [r]), h2 ++ [EvSleep 1]) /\
    rec_reward r = JInt 7 /\ rec_score r = JInt 3.
Proof.
  destruct (available_status_record_fields world_one_address ∅ "node-a" [] [] 200
              [("peerName", JStr "node-a"); ("score", JInt 7);
               ("reward", JInt 3); ("online", JBool true)]
              eq_refl ltac:(lia) ltac:(discriminate))
    as (r & h2 & Hbody & _ & _ & _ & _ & Hreward & Hscore & _).
  exists r, h2. auto.
Defined.

(** ** The status fetch *)

(** X19. [get_peer_info] makes one request and never retries.  It returns
    [None] exactly when the request fails, the status is a 4xx or 5xx, or
    the body does not decode; any other status with an object body, 2xx or
    not, is returned as the node's status. *)
Theorem peer_info_unavailable_iff (w : world) (node_id : string) (h : history) :
  (get_peer_info w node_id h).2 = h ++ [status_request node_id] /\
  ((get_peer_info w node_id h).1 = Ok None <->
   match session_get w h GENSYN_PEER_API_URL (peer_params node_id) with
   | RequestError => True
   | Reply status_code body => 400 <= status_code < 600 \/ body = None
   end) /\
  (forall status_code data,
     session_get w h GENSYN_PEER_API_URL (peer_params node_id) =
       Reply status_code (Some (JDict data)) ->
     ~ (400 <= status_code < 600) ->
     (get_peer_info w node_id h).1 = Ok (Some data)).
Proof.
  split; [apply get_peer_info_history |].
  unfold get_peer_info.
  destruct (session_get w h GENSYN_PEER_API_URL (peer_params node_id))
    as [| status_code body]; simpl.
  - split; [tauto | intros s d Hd; discriminate Hd].
  - destruct ((400 <=? status_code) && (status_code <? 600)) eqn:Hrange; simpl.
    + apply andb_true_iff in Hrange. split.
      * split; [intros _; left; lia | reflexivity].
      * intros s d Hd Hs. injection Hd as -> _. lia.
    + apply andb_false_iff in Hrange. split.
      * destruct body as [data |]; simpl.
        -- split.
           ++ intros Hnone. destruct data; discriminate Hnone.
           ++ intros [Hs | Hb]; [lia | discriminate Hb].
        -- split; [intros _; right; reflexivity | reflexivity].
      * intros s d Hd _. injection Hd as -> ->. reflexivity.
Qed.

Lemma peer_info_unavailable_iff_witness :
  (get_peer_info world_a_unavailable "node-b" []).1 =
    Ok (Some [("peerName", JStr "node-b"); ("score", JInt 7);
              ("reward", JInt 3); ("online", JBool true)]).
Proof.
  refine (proj2 (proj2 (peer_info_unavailable_iff world_a_unavailable "node-b" []))
            200 _ eq_refl _).
  lia.
Defined.

(** ** The roster file *)

Lemma lstrip_clean (s : string) (c : ascii) (rest : string) :
  lstrip s = String c rest -> is_space c = false.
Proof.
  induction s as [| a s IH]; simpl; [discriminate |].
  destruct (is_space a) eqn:Ha; [exact IH |].
  intros [= <- _]. exact Ha.
Qed.

Lemma rstrip_head (c : ascii) (rest : string) :
  is_space c = false -> exists kept, rstrip (String c rest) = String c kept.
Proof.
  intros Hc. simpl. destruct (rstrip rest); rewrite ?Hc; eauto.
Qed.


Lemma rstrip_idempotent (s : string) : rstrip (rstrip s) = rstrip s.
Proof.
  induction s as [| a s IH]; simpl; [reflexivity |].
  destruct (rstrip s) as [| k kept] eqn:Hs.
  - destruct (is_space a) eqn:Ha; simpl; rewrite ?Ha; reflexivity.
  - cbn [rstrip] in IH |- *. rewrite IH. reflexivity.
Qed.

Lemma lstrip_fixed (s : string) :
  (forall c rest, s = String c rest -> is_space c = false) -> lstrip s = s.
Proof.
  destruct s as [| c rest]; [reflexivity |].
  intros Hhead. simpl. rewrite (Hhead c rest eq_refl). reflexivity.
Qed.

Lemma strip_head_clean (s : string) (c : ascii) (rest : string) :
  strip s = String c rest -> is_space c = false.
Proof.
  unfold strip. destruct (lstrip s) as [| a t] eqn:Hl; [discriminate |].
  pose proof (lstrip_clean s a t Hl) as Ha.
  destruct (rstrip_head a t Ha) as [kept ->].
  intros [= <- _]. exact Ha.
Qed.

Lemma strip_idempotent (s : string) : strip (strip s) = strip s.
Proof.
  unfold strip at 1.
  rewrite (lstrip_fixed (strip s)) by (intros c rest; apply strip_head_clean).
  unfold strip. apply rstrip_idempotent.
Qed.

Lemma stripped_lines_elem (lines : list string) (node_id : string) :
  node_id ∈ stripped_lines lines <->
  node_id <> "" /\ exists line, line ∈ lines /\ strip line = node_id.
Proof.
  induction lines as [| line rest IH]; simpl.
  - rewrite elem_of_nil. split; [contradiction | intros (_ & l & Hl & _)].
    apply elem_of_nil in Hl. contradiction.
  - destruct (String.eqb_spec (strip line) "") as [Hblank | Hkept].
    + rewrite IH. split; intros (Hne & l & Hl & Hs).
      * split; [exact Hne |]. exists l. split; [right; exact Hl | exact Hs].
      * split; [exact Hne |]. apply elem_of_cons in Hl as [-> | Hl]; [congruence |].
        eauto.
    + rewrite elem_of_cons, IH. split.
      * intros [-> | (Hne & l & Hl & Hs)].
        -- split; [exact Hkept |]. exists line. split; [left | reflexivity].
        -- split; [exact Hne |]. exists l. split; [right; exact Hl | exact Hs].
      * intros (Hne & l & Hl & Hs).
        apply elem_of_cons in Hl as [-> | Hl]; [left; congruence | right; eauto].
Qed.



Lemma stripped_lines_fixed (node_ids : list string) :
  Forall (fun node_id => node_id <> "" /\ strip node_id = node_id) node_ids ->
  stripped_lines node_ids = node_ids.
Proof.
  induction 1 as [| node_id rest [Hne Hfix] _ IH]; simpl; [reflexivity |].
  rewrite Hfix. apply String.eqb_neq in Hne. rewrite Hne, IH. reflexivity.
Qed.

(** X21. Reading a roster that was written back one identity per line gives the
    same roster: [read_node_ids] changes nothing in its own output. *)
Theorem read_node_ids_idempotent (file : file_result) :
  read_node_ids (FileLines (read_node_ids file)) = read_node_ids file.
Proof.
  simpl. apply stripped_lines_fixed. apply Forall_forall. intros node_id Hin.
  assert (Hs : node_id <> "" /\ exists line, strip line = node_id).
  { destruct file as [| | lines]; simpl in Hin;
      try (apply elem_of_nil in Hin; contradiction).
    apply stripped_lines_elem in Hin as (Hne & line & _ & Hs). eauto. }
  destruct Hs as (Hne & line & <-). split; [exact Hne | apply strip_idempotent].
Qed.

(** X22. With a missing or unreadable roster file the cycle returns no record
    and requests no status; it still makes the chain call, with an empty
    list, when the contract is initialised. *)
Theorem missing_roster_gives_empty_cycle (w : world) (self : collector)
    (file : file_result) (h : history) :
  file = FileNotFound \/ file = FileFails ->
  collect_node_data w self (read_node_ids file) h =
    (Ok [], h ++ (if contract self then [EvGetEoa []] else [])).
Proof.
  intros [-> | ->]; simpl; unfold collect_node_data;
    pose proof (batch_history w self [] h) as Hb;
    destruct (get_eoa_addresses_batch w self [] h) as [eoa_addresses h0];
    simpl in Hb; subst h0; reflexivity.
Qed.

Lemma missing_roster_gives_empty_cycle_witness :
  collect_node_data world_two_addresses ready (read_node_ids FileNotFound) [] =
    (Ok [], [EvGetEoa []]).
Proof.
  apply (missing_roster_gives_empty_cycle world_two_addresses ready FileNotFound []).
  left. reflexivity.
Defined.
